(** * Line selection and URL-fragment synchronisation of [EditorTextArea.js]

    A shallow embedding of the two hooks [useSelectedLine] and
    [useLineNumberMagic] of [src/components/EditorTextArea.js], and the
    properties of the selection state machine built on them.

    Modelling conventions.
    - A JavaScript Number that holds a line number is an integer-valued
      double, an infinity or [NaN]: type [number].  The integers a double
      can hold are those [round_double] leaves alone; conversions from text
      round to them and overflow to [Infinity], and conversion to text
      prints the shortest digits that read back as the same double, in
      exponent form from [10^21] on.
    - A JavaScript string is a [string] of 8-bit characters.
    - The React state cell [selected] is a two-element array, modelled as a
      pair; an effect is the function from the state it reads to the value
      it writes or the calls it issues. *)

From Stdlib Require Import ZArith String Ascii List Bool Lia.
Import ListNotations.

Local Open Scope string_scope.
Local Open Scope Z_scope.

(** ** JavaScript numbers *)

Module JS.

Inductive number : Type :=
| Int (z : Z)
| NaN
| Infinity
| MinusInfinity.

(** [x === y] on numbers: [NaN] is equal to nothing, itself included. *)
Definition strict_eq (x y : number) : bool :=
  match x, y with
  | Int a, Int b => a =? b
  | Infinity, Infinity => true
  | MinusInfinity, MinusInfinity => true
  | _, _ => false
  end.

(** [x > y]: false as soon as one side is [NaN]. *)
Definition gt (x y : number) : bool :=
  match x, y with
  | NaN, _ => false
  | _, NaN => false
  | Int a, Int b => b <? a
  | Infinity, Infinity => false
  | Infinity, _ => true
  | _, Infinity => false
  | MinusInfinity, _ => false
  | _, MinusInfinity => true
  end.

(** [x !== y] *)
Definition strict_neq (x y : number) : bool := negb (strict_eq x y).

(** [Math.min(x, y)] and [Math.max(x, y)]: [NaN] is contagious. *)
Definition Math_min (x y : number) : number :=
  match x, y with
  | NaN, _ => NaN
  | _, NaN => NaN
  | MinusInfinity, _ => MinusInfinity
  | _, MinusInfinity => MinusInfinity
  | Infinity, v => v
  | v, Infinity => v
  | Int a, Int b => Int (Z.min a b)
  end.

Definition Math_max (x y : number) : number :=
  match x, y with
  | NaN, _ => NaN
  | _, NaN => NaN
  | Infinity, _ => Infinity
  | _, Infinity => Infinity
  | MinusInfinity, v => v
  | v, MinusInfinity => v
  | Int a, Int b => Int (Z.max a b)
  end.

(** [isNaN(v)] where [v] is a number or [undefined] ([None]):
    [undefined] converts to [NaN]. *)
Definition isNaN (v : option number) : bool :=
  match v with
  | Some NaN => true
  | Some _ => false
  | None => true
  end.

(** *** Integers as doubles *)

(** The double nearest to a non-negative integer [v]: [v] itself below
    [2^53]; beyond, the 53 leading bits of [v], rounded to nearest with ties
    to the even neighbour; [Infinity] once that reaches [2^1024]. *)
Definition round_nonneg (v : Z) : number :=
  if v <? 2 ^ 53 then Int v
  else
    let e := Z.log2 v - 52 in
    let q := v / 2 ^ e in
    let r := v mod 2 ^ e in
    let half := 2 ^ (e - 1) in
    let q' := if (half <? r) || ((r =? half) && Z.odd q) then q + 1 else q in
    if 2 ^ 1024 <=? q' * 2 ^ e then Infinity else Int (q' * 2 ^ e).

Definition negate (x : number) : number :=
  match x with
  | Int z => Int (- z)
  | NaN => NaN
  | Infinity => MinusInfinity
  | MinusInfinity => Infinity
  end.

(** The Number value for the integer [v]. *)
Definition round_double (v : Z) : number :=
  if v <? 0 then negate (round_nonneg (- v)) else round_nonneg v.

(** *** Characters *)

Definition is_digit (c : ascii) : bool :=
  let n := nat_of_ascii c in (48 <=? n)%nat && (n <=? 57)%nat.

Definition digit_value (c : ascii) : Z := Z.of_nat (nat_of_ascii c) - 48.

Definition digit_char (d : Z) : ascii := ascii_of_nat (Z.to_nat (48 + d)).

(** Value of a hexadecimal digit, if [c] is one. *)
Definition hex_value (c : ascii) : option Z :=
  let n := nat_of_ascii c in
  if is_digit c then Some (Z.of_nat n - 48)
  else if (97 <=? n)%nat && (n <=? 102)%nat then Some (Z.of_nat n - 87)
  else if (65 <=? n)%nat && (n <=? 70)%nat then Some (Z.of_nat n - 55)
  else None.

(** White space skipped by [parseInt] (the 8-bit part of it). *)
Definition is_space (c : ascii) : bool :=
  let n := nat_of_ascii c in
  (n =? 9)%nat || (n =? 10)%nat || (n =? 11)%nat || (n =? 12)%nat
  || (n =? 13)%nat || (n =? 32)%nat || (n =? 160)%nat.

Fixpoint all_digits (s : string) : bool :=
  match s with
  | EmptyString => true
  | String c s' => is_digit c && all_digits s'
  end.

(** *** Number to string: the substitution [${n}] of a template literal *)

Fixpoint digits_of (fuel : nat) (n : Z) (acc : string) : string :=
  match fuel with
  | O => acc
  | S fuel' =>
      let acc' := String (digit_char (n mod 10)) acc in
      if n / 10 =? 0 then acc' else digits_of fuel' (n / 10) acc'
  end.

(** Decimal digits of a non-negative integer, most significant first. *)
Definition decimal (n : Z) : string :=
  digits_of (S (Z.to_nat (Z.log2 n))) n "".

(** Whether the integer [c] is read as the double [z]. *)
Definition rounds_to (c z : Z) : bool :=
  match round_double c with
  | Int d => d =? z
  | _ => false
  end.

(** The highest power of ten not above [z], from [scale] upwards. *)
Fixpoint top_scale (fuel : nat) (z scale : Z) : Z :=
  match fuel with
  | O => scale
  | S fuel' =>
      if 10 * scale <=? z then top_scale fuel' z (10 * scale) else scale
  end.

(** The integer with the fewest significant digits that is read as the
    double [z]: for one digit, then two, and so on, the two multiples of
    [scale] around [z] are tried, the nearer one first (the one with the
    even digits when both are as near); [z] itself with all its digits. *)
Fixpoint shortest_from (fuel : nat) (scale z : Z) : Z :=
  match fuel with
  | O => z
  | S fuel' =>
      if scale <=? 1 then z
      else
        let lo := z / scale * scale in
        let hi := lo + scale in
        let first :=
          if z - lo <? hi - z then lo
          else if hi - z <? z - lo then hi
          else if Z.even (z / scale) then lo else hi in
        let second := if first =? lo then hi else lo in
        if rounds_to first z then first
        else if rounds_to second z then second
        else shortest_from fuel' (scale / 10) z
  end.

Definition shortest (z : Z) : Z :=
  let n := String.length (decimal z) in
  shortest_from n (top_scale n z 1) z.

Fixpoint strip_zeros (s : string) : string :=
  match s with
  | EmptyString => EmptyString
  | String c s' =>
      match strip_zeros s' with
      | EmptyString =>
          if Ascii.eqb c "0" then EmptyString else String c EmptyString
      | t => String c t
      end
  end.

(** [d.ddde+x]: the digits of [p] without its trailing zeros, a point after
    the first when there are several, and the number of digits that follow
    the first in [p]. *)
Definition exponent_form (p : Z) : string :=
  let ds := decimal p in
  let x := decimal (Z.of_nat (String.length ds) - 1) in
  match strip_zeros ds with
  | EmptyString => ds
  | String c EmptyString => String c ("e+" ++ x)
  | String c m => String c ("." ++ m ++ "e+" ++ x)
  end.

(** The text of a non-negative integer-valued double. *)
Definition number_digits (z : Z) : string :=
  let p := shortest z in
  if p <? 10 ^ 21 then decimal p else exponent_form p.

Definition ToString (x : number) : string :=
  match x with
  | Int z => if z <? 0 then String "-" (number_digits (- z)) else number_digits z
  | NaN => "NaN"
  | Infinity => "Infinity"
  | MinusInfinity => "-Infinity"
  end.

(** *** String to number *)

Fixpoint horner (acc : Z) (s : string) : Z :=
  match s with
  | EmptyString => acc
  | String c s' => horner (10 * acc + digit_value c) s'
  end.

(** [Number(s)] on the strings this program converts: a run of decimal
    digits (leading zeros allowed, no octal reading; the empty string is 0),
    read as the nearest double.  The only call site sits behind the fragment
    pattern, which lets nothing else through (lemma [pieces_are_digits]
    below); any other string is answered [NaN] here. *)
Definition Number (s : string) : number :=
  if all_digits s then round_double (horner 0 s) else NaN.

(** [parseInt(s)] with no radix argument: leading white space is skipped, a
    sign is read, a [0x]/[0X] prefix selects base 16, then the longest run
    of digits is converted to the nearest double; no digit at all gives
    [NaN]. *)
Fixpoint skip_space (s : string) : string :=
  match s with
  | String c s' => if is_space c then skip_space s' else s
  | EmptyString => s
  end.

Fixpoint scan_dec (acc : option Z) (s : string) : option Z :=
  match s with
  | String c s' =>
      if is_digit c
      then scan_dec (Some (10 * match acc with Some a => a | None => 0 end
                           + digit_value c)) s'
      else acc
  | EmptyString => acc
  end.

Fixpoint scan_hex (acc : option Z) (s : string) : option Z :=
  match s with
  | String c s' =>
      match hex_value c with
      | Some d =>
          scan_hex (Some (16 * match acc with Some a => a | None => 0 end + d)) s'
      | None => acc
      end
  | EmptyString => acc
  end.

Definition scan_unsigned (s : string) : option Z :=
  match s with
  | String "0" (String "x" s') | String "0" (String "X" s') => scan_hex None s'
  | _ => scan_dec None s
  end.

Definition parseInt (s : string) : number :=
  let s1 := skip_space s in
  let '(sign, s2) :=
    match s1 with
    | String "-" r => (-1, r)
    | String "+" r => (1, r)
    | _ => (1, s1)
    end in
  match scan_unsigned s2 with
  | Some v => round_double (sign * v)
  | None => NaN
  end.

(** *** Strings *)

(** [s.substring(n)] *)
Fixpoint substring_from (n : nat) (s : string) : string :=
  match n, s with
  | O, _ => s
  | S n', String _ s' => substring_from n' s'
  | S _, EmptyString => EmptyString
  end.

(** [s.split(sep)] for a one-character separator.  The result is never
    empty: it is returned as its first piece and the remaining ones. *)
Fixpoint split (sep : ascii) (s : string) : string * list string :=
  match s with
  | EmptyString => (EmptyString, [])
  | String c s' =>
      let '(p, ps) := split sep s' in
      if Ascii.eqb c sep then (EmptyString, p :: ps) else (String c p, ps)
  end.

End JS.

(** ** Regular expressions

    The fragment of JavaScript's [RegExp] the program uses: literals, the
    class [\d], sequence, [+] and [?].  Both anchors [^] and [$] are present
    in the only pattern of the program, so [test] decides whether the whole
    string belongs to the pattern; it does so with Brzozowski derivatives. *)

Module RegExp.

Inductive regexp : Type :=
| Void
| Eps
| Lit (c : ascii)
| Digit
| Seq (r1 r2 : regexp)
| Alt (r1 r2 : regexp)
| Star (r : regexp).

(** [r+] and [r?] *)
Definition Plus (r : regexp) : regexp := Seq r (Star r).
Definition Opt (r : regexp) : regexp := Alt r Eps.

Fixpoint nullable (r : regexp) : bool :=
  match r with
  | Void => false
  | Eps => true
  | Lit _ => false
  | Digit => false
  | Seq r1 r2 => nullable r1 && nullable r2
  | Alt r1 r2 => nullable r1 || nullable r2
  | Star _ => true
  end.

Fixpoint deriv (c : ascii) (r : regexp) : regexp :=
  match r with
  | Void => Void
  | Eps => Void
  | Lit c' => if Ascii.eqb c c' then Eps else Void
  | Digit => if JS.is_digit c then Eps else Void
  | Seq r1 r2 =>
      if nullable r1
      then Alt (Seq (deriv c r1) r2) (deriv c r2)
      else Seq (deriv c r1) r2
  | Alt r1 r2 => Alt (deriv c r1) (deriv c r2)
  | Star r1 => Seq (deriv c r1) (Star r1)
  end.

(** [/^r$/.test(s)] *)
Fixpoint test (r : regexp) (s : string) : bool :=
  match s with
  | EmptyString => nullable r
  | String c s' => test (deriv c r) s'
  end.

(** The strings of a pattern. *)
Inductive matches : regexp -> string -> Prop :=
| MEps : matches Eps ""
| MLit c : matches (Lit c) (String c "")
| MDigit c : JS.is_digit c = true -> matches Digit (String c "")
| MSeq r1 r2 s1 s2 :
    matches r1 s1 -> matches r2 s2 -> matches (Seq r1 r2) (s1 ++ s2)
| MAltL r1 r2 s : matches r1 s -> matches (Alt r1 r2) s
| MAltR r1 r2 s : matches r2 s -> matches (Alt r1 r2) s
| MStar0 r : matches (Star r) ""
| MStarS r s1 s2 :
    matches r s1 -> matches (Star r) s2 -> matches (Star r) (s1 ++ s2).

End RegExp.

(** ** The component *)

Import JS.

(** The state cell [selected]: the array [[a, b]]. *)
Definition selection : Type := (number * number)%type.

(** [/^#L\d+(-\d+)?$/] *)
Definition hash_re : RegExp.regexp :=
  RegExp.Seq (RegExp.Lit "#")
    (RegExp.Seq (RegExp.Lit "L")
       (RegExp.Seq (RegExp.Plus RegExp.Digit)
          (RegExp.Opt (RegExp.Seq (RegExp.Lit "-") (RegExp.Plus RegExp.Digit))))).

(** [useSelectedLine], the initializer of [useState]: the selection read from
    [window.location.hash].  [end_] is [undefined] ([None]) when [split]
    returned a single piece. *)
Definition initial_selected (hash : string) : selection :=
  if RegExp.test hash_re hash then
    let '(p, ps) := split "-" (substring_from 2 hash) in
    let start := Number p in
    let end_ := option_map Number (hd_error ps) in
    (start, match end_ with
            | Some e => if isNaN end_ then start else e
            | None => start
            end)
  else (Int (-1), Int (-1)).

(** [useSelectedLine], the effect on [[selected]]: the [hash] handed to
    [history.replace]. *)
Definition hash_of (selected : selection) : string :=
  let '(s0, s1) := selected in
  if strict_neq s0 (Int (-1)) then
    if strict_neq s1 s0 then
      let start := Math_min s0 s1 in
      let end_ := Math_max s0 s1 in
      "#L" ++ ToString start ++ "-" ++ ToString end_
    else "#L" ++ ToString s0
  else "".

(** The part of a DOM click event the program reads. *)
Record Element : Type := {
  classList : list string;
  textContent : string
}.

Record MouseEvent : Type := {
  target : option Element;
  shiftKey : bool
}.

(** [useSelectedLine], [toggleSelected(lineNo, e)]: the array handed to
    [setSelected]. *)
Definition toggleSelected (selected : selection) (lineNo : number)
    (e : MouseEvent) : selection :=
  let '(s0, s1) := selected in
  let shift := shiftKey e in
  if strict_eq s0 lineNo && strict_eq s1 lineNo then (Int (-1), Int (-1))
  else if strict_eq s0 (Int (-1)) || negb shift then (lineNo, lineNo)
  else (s0, lineNo).

(** [classList.contains(name)] *)
Definition contains (cl : list string) (name : string) : bool :=
  existsb (String.eqb name) cl.

(** [useLineNumberMagic], the click listener: the call of [toggleSelected]
    it makes, if any.  The argument is [None] for a missing event
    ([click?.target]). *)
Definition handler (click : option MouseEvent)
    : option (number * MouseEvent) :=
  match click with
  | Some ev =>
      match target ev with
      | Some t =>
          if contains (classList t) "line-numbers"
          then Some (parseInt (textContent t), ev)
          else None
      | None => None
      end
  | None => None
  end.

(** The hook between renders: the state cell and the fragment of the URL. *)
Record view : Type := {
  selected : selection;
  location_hash : string
}.

(** First render: the initializer runs, then the effect on [[selected]]. *)
Definition mount (hash : string) : view :=
  let s := initial_selected hash in
  {| selected := s; location_hash := hash_of s |}.

(** [toggleSelected] called on the rendered state, and the effect that
    follows the state change. *)
Definition toggle (v : view) (lineNo : number) (e : MouseEvent) : view :=
  let s := toggleSelected (selected v) lineNo e in
  {| selected := s; location_hash := hash_of s |}.

(** A click on the editor area. *)
Definition on_click (v : view) (click : option MouseEvent) : view :=
  match handler click with
  | Some (lineNo, e) => toggle v lineNo e
  | None => v
  end.

(** *** The viewer (Monaco) as the program calls it *)

(** A range of the editor, from one position to another. *)
Record Range : Type := {
  startLineNumber : number;
  startColumn : number;
  endLineNumber : number;
  endColumn : number
}.

(** [new monaco.Range(startLineNumber, startColumn, endLineNumber,
    endColumn)].  The constructor belongs to the editor library, not to this
    repository: it keeps the two positions in order, and exchanges them when
    the first lies after the second. *)
Definition new_Range (startLineNumber startColumn endLineNumber endColumn : number)
    : Range :=
  if gt startLineNumber endLineNumber
     || (strict_eq startLineNumber endLineNumber && gt startColumn endColumn)
  then {| startLineNumber := endLineNumber; startColumn := endColumn;
          endLineNumber := startLineNumber; endColumn := startColumn |}
  else {| startLineNumber := startLineNumber; startColumn := startColumn;
          endLineNumber := endLineNumber; endColumn := endColumn |}.

Record decoration_options : Type := {
  isWholeLine : bool;
  linesDecorationsClassName : string
}.

Record decoration : Type := {
  range : Range;
  options : decoration_options
}.

(** Calls on the editor: [deltaDecorations] and the family of line-reveal
    methods of its API, of which the program uses two. *)
Inductive editor_call : Type :=
| deltaDecorations (oldDecorations : list string) (newDecorations : list decoration)
| revealLine (lineNumber : number)
| revealLineInCenter (lineNumber : number)
| revealLineInCenterIfOutsideViewport (lineNumber : number)
| revealLines (startLineNumber endLineNumber : number)
| revealLinesInCenter (startLineNumber endLineNumber : number)
| revealLinesInCenterIfOutsideViewport (startLineNumber endLineNumber : number).

(** How a reveal method places what it reveals, as its name says. *)
Inductive vertical_reveal : Type :=
| Simple
| Center
| CenterIfOutsideViewport.

Definition reveal_type (c : editor_call) : option vertical_reveal :=
  match c with
  | deltaDecorations _ _ => None
  | revealLine _ | revealLines _ _ => Some Simple
  | revealLineInCenter _ | revealLinesInCenter _ _ => Some Center
  | revealLineInCenterIfOutsideViewport _
  | revealLinesInCenterIfOutsideViewport _ _ => Some CenterIfOutsideViewport
  end.

(** One run of an effect: the calls of its body and those of the cleanup
    function it returns. *)
Record effect_run : Type := {
  calls : list editor_call;
  cleanup : list editor_call
}.

(** [useLineNumberMagic], the effect on
    [[editor, monaco, selected, forcedContent]].  [editor] and [monaco] say
    whether the two objects are set; [decorations] is what the editor
    answers to the first [deltaDecorations]. *)
Definition highlight_effect (editor monaco : bool) (selected : selection)
    (decorations : list string) : effect_run :=
  let '(s0, s1) := selected in
  if negb editor || negb monaco || strict_eq s0 (Int (-1)) then
    {| calls := []; cleanup := [] |}
  else
    let newDecorations :=
      [ {| range := new_Range s0 (Int 1) s1 (Int 1);
           options := {| isWholeLine := true;
                         linesDecorationsClassName := "highlighted-line" |} |} ] in
    {| calls :=
         [ deltaDecorations [] newDecorations;
           if strict_eq s0 s1
           then revealLineInCenterIfOutsideViewport s0
           else revealLinesInCenterIfOutsideViewport s0 s1 ];
       cleanup := [ deltaDecorations decorations [] ] |}.

(** The decoration range an effect run asked for, if it asked for one. *)
Definition requested_range (r : effect_run) : option Range :=
  match calls r with
  | deltaDecorations _ (d :: _) :: _ => Some (range d)
  | _ => None
  end.

(** The reveal call of an effect run, if it made one. *)
Definition requested_reveal (r : effect_run) : option editor_call :=
  match calls r with
  | _ :: c :: _ => Some c
  | _ => None
  end.

(** *** Vocabulary of the statements *)

(** A number the fragment writes in plain digits: a double that is an
    integer at least 0 and below [10^21]. *)
Definition plain (z : Z) : Prop :=
  round_double z = Int z /\ 0 <= z < 10 ^ 21.

(** A value a JavaScript number can have: an integer is one only when it
    is a double. *)
Definition is_number (x : number) : Prop :=
  match x with
  | Int z => round_double z = Int z
  | _ => True
  end.

(** Whether the character [c] occurs in [s]. *)
Fixpoint occurs (c : ascii) (s : string) : bool :=
  match s with
  | EmptyString => false
  | String c' s' => Ascii.eqb c c' || occurs c s'
  end.

(** A number of a selection that is at least 0, [Infinity] included. *)
Definition nonneg (x : number) : Prop :=
  match x with
  | Int z => 0 <= z
  | Infinity => True
  | NaN => False
  | MinusInfinity => False
  end.

(** A non-empty run of decimal digits: what [\d+] matches. *)
Definition digit_run (s : string) : Prop := s <> "" /\ all_digits s = true.

(** The click event of a gutter cell showing [text]. *)
Definition gutter_click (text : string) (shift : bool) : MouseEvent :=
  {| target := Some {| classList := ["line-numbers"]; textContent := text |};
     shiftKey := shift |}.

(** A click event with nothing but the state of the shift key. *)
Definition with_shift (shift : bool) : MouseEvent :=
  {| target := None; shiftKey := shift |}.

(** The selections the hook can hold: the one computed at mount from any
    fragment, and those [toggleSelected] stores when called with a positive
    line number. *)
Inductive reachable : selection -> Prop :=
| reach_init (hash : string) : reachable (initial_selected hash)
| reach_toggle (s : selection) (line : Z) (e : MouseEvent) :
    reachable s -> 0 < line -> reachable (toggleSelected s (Int line) e).

(** *** [usePlaceholderText] *)

(** The decoration of the placeholder: its options carry injected text
    instead of a line class, so it has record types of its own. *)
Module Placeholder.

Record injected_text : Type := {
  content : string;
  inlineClassName : string
}.

Record decoration_options : Type := {
  after : injected_text
}.

Record decoration : Type := {
  range : Range;
  options : decoration_options
}.

Inductive editor_call : Type :=
| deltaDecorations (oldDecorations : list string) (newDecorations : list decoration).

Record effect_run : Type := {
  calls : list editor_call;
  cleanup : list editor_call
}.

End Placeholder.

(** Whether a string that may be missing ([undefined], [null]) is truthy:
    only a non-empty string is. *)
Definition truthy (v : option string) : bool :=
  match v with
  | Some (String _ _) => true
  | Some EmptyString => false
  | None => false
  end.

(** The zero-width space U+200B of the source, as its three UTF-8 bytes. *)
Definition zero_width_space : string :=
  String (ascii_of_nat 226) (String (ascii_of_nat 128)
    (String (ascii_of_nat 139) EmptyString)).

(** [usePlaceholderText], the effect on [[editor, monaco, actualContent]].
    [decorations] is what the editor answers to the first
    [deltaDecorations]. *)
Definition placeholder_effect (editor monaco : bool)
    (actualContent : option string) (decorations : list string)
    : Placeholder.effect_run :=
  if negb editor || negb monaco || truthy actualContent then
    {| Placeholder.calls := []; Placeholder.cleanup := [] |}
  else
    let decoration :=
      {| Placeholder.range := new_Range (Int 1) (Int 1) (Int 1) (Int 1);
         Placeholder.options :=
           {| Placeholder.after :=
                {| Placeholder.content := zero_width_space;
                   Placeholder.inlineClassName := "placeholder-text" |} |} |} in
    {| Placeholder.calls := [ Placeholder.deltaDecorations [] [decoration] ];
       Placeholder.cleanup := [ Placeholder.deltaDecorations decorations [] ] |}.

(** *** Effects over the life of the component

    React runs the body of an effect after the first render and after each
    render in which a dependency changed, and runs the cleanup function the
    previous body returned just before; at unmount it runs the last cleanup.
    [ed] is the state of the editor the calls act on, [exec_call] what one
    call does to it and answers, and [effect] an effect as a function of its
    dependencies and of the answer its body captures. *)

Section Lifecycle.

Context {ed call Deps : Type}.
Variable exec_call : ed -> call -> ed * list string.
Variable effect : Deps -> list string -> list call * list call.

Definition exec (e : ed) (cs : list call) : ed :=
  fold_left (fun e' c => fst (exec_call e' c)) cs e.

(** The answer of the editor to the first call of a body. *)
Definition answer (e : ed) (cs : list call) : list string :=
  match cs with
  | c :: _ => snd (exec_call e c)
  | [] => []
  end.

(** One run of the body: the editor after it, and the cleanup it returns.
    The calls of the two bodies of this program do not depend on the answer,
    so they are computed first and the answer is read off them. *)
Definition run_effect (e : ed) (d : Deps) : ed * list call :=
  let body := fst (effect d []) in
  (exec e body, snd (effect d (answer e body))).

(** The runs for the successive values [ds] of the dependencies, from the
    editor [e] with the cleanup [pending] of the run before. *)
Fixpoint renders (e : ed) (pending : list call) (ds : list Deps)
    : ed * list call :=
  match ds with
  | [] => (e, pending)
  | d :: ds' =>
      let '(e', pending') := run_effect (exec e pending) d in
      renders e' pending' ds'
  end.

Definition unmount (st : ed * list call) : ed :=
  exec (fst st) (snd st).

End Lifecycle.

(** The two effects in that form.  [delta] is [editor.deltaDecorations]: the
    editor after the call and the ids it returns.  The reveal calls scroll
    the view and leave the decorations as they are. *)
Definition highlight_deps : Type := (bool * bool * selection)%type.

Definition highlight_run (d : highlight_deps) (decorations : list string)
    : list editor_call * list editor_call :=
  let '(editor, monaco, selected) := d in
  let r := highlight_effect editor monaco selected decorations in
  (calls r, cleanup r).

Definition highlight_exec {ed : Type}
    (delta : ed -> list string -> list decoration -> ed * list string)
    (e : ed) (c : editor_call) : ed * list string :=
  match c with
  | deltaDecorations old new => delta e old new
  | _ => (e, [])
  end.

Definition placeholder_deps : Type := (bool * bool * option string)%type.

Definition placeholder_run (d : placeholder_deps) (decorations : list string)
    : list Placeholder.editor_call * list Placeholder.editor_call :=
  let '(editor, monaco, actualContent) := d in
  let r := placeholder_effect editor monaco actualContent decorations in
  (Placeholder.calls r, Placeholder.cleanup r).

Definition placeholder_exec {ed : Type}
    (delta : ed -> list string -> list Placeholder.decoration -> ed * list string)
    (e : ed) (c : Placeholder.editor_call) : ed * list string :=
  match c with
  | Placeholder.deltaDecorations old new => delta e old new
  end.

(** The decorations a body hands to the editor. *)
Definition highlight_added (d : highlight_deps) : list decoration :=
  match fst (highlight_run d []) with
  | deltaDecorations _ new :: _ => new
  | _ => []
  end.

Definition placeholder_added (d : placeholder_deps) : list Placeholder.decoration :=
  match fst (placeholder_run d []) with
  | Placeholder.deltaDecorations _ new :: _ => new
  | [] => []
  end.

(** A store of decorations that honours [deltaDecorations]: the newest
    decorations are kept last and an id is returned for each. *)
Definition stack_delta {D : Type} (e : list D) (old : list string)
    (new : list D) : list D * list string :=
  ((firstn (length e - length old)%nat e ++ new)%list, map (fun _ => "d") new).

(** *** The click listener over renders *)

(** Calls on the DOM node of the editor area.  A listener is the closure
    [handler] of one render; it calls the [toggleSelected] of that render
    and is identified here by the selection that [toggleSelected] closes
    over. *)
Inductive node_call : Type :=
| addEventListener (type : string) (listener : selection)
| removeEventListener (type : string) (listener : selection).

(** [useLineNumberMagic], the effect on [[editorAreaRef, toggleSelected]]:
    the calls of its body and of its cleanup.  [node] says whether
    [editorAreaRef.current] is set.  [toggleSelected] is a new function at
    every render, so the effect runs at every render. *)
Definition listener_effect (node : bool) (selected : selection)
    : list node_call * list node_call :=
  if negb node then ([], [])
  else ([addEventListener "click" selected],
        [removeEventListener "click" selected]).

Definition listener_deps : Type := (bool * selection)%type.

Definition listener_run (d : listener_deps) (_ : list string)
    : list node_call * list node_call :=
  listener_effect (fst d) (snd d).

Definition listener_exec {nd : Type} (listen : nd -> node_call -> nd)
    (n : nd) (c : node_call) : nd * list string :=
  (listen n c, []).

(** The listener a body binds. *)
Definition listener_added (d : listener_deps) : list selection :=
  match fst (listener_run d []) with
  | addEventListener _ l :: _ => [l]
  | _ => []
  end.

(** What the listener of a render does with a click: the selection it hands
    to [setSelected], if it calls [toggleSelected]. *)
Definition listener_click (l : selection) (click : option MouseEvent)
    : option selection :=
  match handler click with
  | Some (lineNo, e) => Some (toggleSelected l lineNo e)
  | None => None
  end.

(** A node that honours the two calls: listeners are kept in the order in
    which they were bound. *)
Definition stack_listen (n : list selection) (c : node_call) : list selection :=
  match c with
  | addEventListener _ l => (n ++ [l])%list
  | removeEventListener _ _ => removelast n
  end.

(** *** Sequences of clicks *)




(** Shift-clicks on the lines [ls], in order. *)
Definition shift_clicks (s : selection) (ls : list Z) : selection :=
  fold_left (fun s' l => toggleSelected s' (Int l) (with_shift true)) ls s.

(** ** Evaluation on concrete inputs *)

Example decimal_0 : JS.decimal 0 = "0". Proof. reflexivity. Qed.
Example decimal_1234 : JS.decimal 1234 = "1234". Proof. reflexivity. Qed.
Example ToString_neg : JS.ToString (JS.Int (-5)) = "-5". Proof. reflexivity. Qed.
Example Number_007 : JS.Number "007" = JS.Int 7. Proof. reflexivity. Qed.
Example parseInt_12 : JS.parseInt "12" = JS.Int 12. Proof. reflexivity. Qed.
Example parseInt_pad : JS.parseInt "  42px" = JS.Int 42. Proof. reflexivity. Qed.
Example parseInt_hex : JS.parseInt "0x1f" = JS.Int 31. Proof. reflexivity. Qed.
Example parseInt_empty : JS.parseInt "" = JS.NaN. Proof. reflexivity. Qed.
Example split_3_9 : JS.split "-" "3-9" = ("3", ["9"]). Proof. reflexivity. Qed.
Example split_5 : JS.split "-" "5" = ("5", []). Proof. reflexivity. Qed.
Example test_L5 : RegExp.test hash_re "#L5" = true. Proof. reflexivity. Qed.
Example test_L3_9 : RegExp.test hash_re "#L3-9" = true. Proof. reflexivity. Qed.
Example test_Lxyz : RegExp.test hash_re "#Lxyz" = false. Proof. reflexivity. Qed.
Example test_L3_ : RegExp.test hash_re "#L3-" = false. Proof. reflexivity. Qed.
Example test_L3_9x : RegExp.test hash_re "#L3-9 " = false. Proof. reflexivity. Qed.
Example init_L5 : initial_selected "#L5" = (Int 5, Int 5). Proof. reflexivity. Qed.
Example init_L0 : initial_selected "#L0" = (Int 0, Int 0). Proof. reflexivity. Qed.
Example hash_4_2 : hash_of (Int 4, Int 2) = "#L2-4". Proof. reflexivity. Qed.
Example hash_nan : hash_of (NaN, NaN) = "#LNaN-NaN". Proof. reflexivity. Qed.

Example Number_rounds : Number "9007199254740993" = Int 9007199254740992.
Proof. vm_compute. reflexivity. Qed.

Example Number_overflows :
  Number (string_of_list_ascii (repeat "9"%char 400)) = Infinity.
Proof. vm_compute. reflexivity. Qed.

Example parseInt_rounds : parseInt "9007199254740993" = Int 9007199254740992.
Proof. vm_compute. reflexivity. Qed.

Example ToString_2_53 : ToString (Int (2 ^ 53)) = "9007199254740992".
Proof. vm_compute. reflexivity. Qed.

Example ToString_2_63 : ToString (Int (2 ^ 63)) = "9223372036854776000".
Proof. vm_compute. reflexivity. Qed.

Example ToString_2_64 : ToString (Int (2 ^ 64)) = "18446744073709552000".
Proof. vm_compute. reflexivity. Qed.

Example ToString_1e21 : ToString (Int (10 ^ 21)) = "1e+21".
Proof. vm_compute. reflexivity. Qed.

Example ToString_2_70 : ToString (Int (2 ^ 70)) = "1.1805916207174113e+21".
Proof. vm_compute. reflexivity. Qed.

Example ToString_max_value :
  ToString (Int ((2 ^ 53 - 1) * 2 ^ 971)) = "1.7976931348623157e+308".
Proof. vm_compute. reflexivity. Qed.

Example hash_1e21 :
  hash_of (initial_selected "#L1000000000000000000000") = "#L1e+21".
Proof. vm_compute. reflexivity. Qed.

Example hash_infinity :
  hash_of (initial_selected
             ("#L" ++ string_of_list_ascii (repeat "9"%char 400)))
  = "#LInfinity".
Proof. vm_compute. reflexivity. Qed.

Example new_Range_4_2 :
  new_Range (Int 4) (Int 1) (Int 2) (Int 1) =
  {| startLineNumber := Int 2; startColumn := Int 1;
     endLineNumber := Int 4; endColumn := Int 1 |}.
Proof. reflexivity. Qed.

(** Not every integer is a number: [1152921504606847000] is read as the
    double [2^60], which is written with these very digits. *)
Example integer_not_a_double :
  round_double 1152921504606847000 = Int (2 ^ 60)
  /\ ToString (Int (2 ^ 60)) = "1152921504606847000".
Proof. vm_compute. split; reflexivity. Qed.

(** ** Digits *)

Section Digits.

Lemma digit_cases (d : Z) :
  0 <= d < 10 ->
  d = 0 \/ d = 1 \/ d = 2 \/ d = 3 \/ d = 4 \/
  d = 5 \/ d = 6 \/ d = 7 \/ d = 8 \/ d = 9.
Proof. lia. Qed.

(** Settle a goal about a digit [d] by running it on each of the ten. *)
Ltac each_digit H :=
  let E := fresh "E" in
  let R := fresh "R" in
  destruct (digit_cases _ H) as [E | R];
  [ subst; reflexivity
  | repeat (destruct R as [E | R]; [subst; reflexivity |]);
    subst; reflexivity ].

Lemma is_digit_digit_char (d : Z) :
  0 <= d < 10 -> is_digit (digit_char d) = true.
Proof. intros H. each_digit H. Qed.

Lemma digit_value_digit_char (d : Z) :
  0 <= d < 10 -> digit_value (digit_char d) = d.
Proof. intros H. each_digit H. Qed.

Lemma digit_value_range (c : ascii) :
  is_digit c = true -> 0 <= digit_value c < 10.
Proof.
  unfold is_digit, digit_value. intros H.
  apply andb_true_iff in H. destruct H as [H1 H2].
  apply Nat.leb_le in H1. apply Nat.leb_le in H2. lia.
Qed.

Lemma dash_not_digit : is_digit "-" = false.
Proof. reflexivity. Qed.

(** Reading back what [digits_of] wrote in front of [acc]. *)
Lemma horner_digits_of (fuel : nat) :
  forall n acc, 0 <= n < 2 ^ Z.of_nat fuel ->
    horner 0 (digits_of fuel n acc) = horner n acc.
Proof.
  induction fuel as [| fuel IH]; intros n acc Hn.
  - simpl in Hn. assert (n = 0) by lia. subst. reflexivity.
  - cbn [digits_of].
    assert (Hm : 0 <= n mod 10 < 10) by (apply Z.mod_pos_bound; lia).
    assert (Hd : n = 10 * (n / 10) + n mod 10) by (apply Z.div_mod; lia).
    destruct (n / 10 =? 0) eqn:Hq.
    + apply Z.eqb_eq in Hq. cbn [horner].
      rewrite digit_value_digit_char by assumption.
      f_equal. lia.
    + rewrite IH.
      * cbn [horner]. rewrite digit_value_digit_char by assumption.
        f_equal. lia.
      * rewrite Nat2Z.inj_succ, Z.pow_succ_r in Hn by lia.
        split; [apply Z.div_pos; lia |].
        apply Z.div_lt_upper_bound; lia.
Qed.

Lemma all_digits_digits_of (fuel : nat) :
  forall n acc, 0 <= n -> all_digits acc = true ->
    all_digits (digits_of fuel n acc) = true.
Proof.
  induction fuel as [| fuel IH]; intros n acc Hn Hacc; [exact Hacc |].
  cbn [digits_of].
  assert (Hm : 0 <= n mod 10 < 10) by (apply Z.mod_pos_bound; lia).
  assert (Hc : all_digits (String (digit_char (n mod 10)) acc) = true).
  { cbn [all_digits]. rewrite is_digit_digit_char by assumption. exact Hacc. }
  destruct (n / 10 =? 0); [exact Hc |].
  apply IH; [apply Z.div_pos; lia | exact Hc].
Qed.

Lemma digits_of_nonempty (fuel : nat) :
  forall n acc, acc <> "" -> digits_of fuel n acc <> "".
Proof.
  induction fuel as [| fuel IH]; intros n acc Hacc; [exact Hacc |].
  cbn [digits_of]. destruct (n / 10 =? 0); [discriminate |].
  apply IH. discriminate.
Qed.

Lemma log2_fuel (n : Z) :
  0 <= n -> 0 <= n < 2 ^ Z.of_nat (S (Z.to_nat (Z.log2 n))).
Proof.
  intros Hn. split; [exact Hn |].
  rewrite Nat2Z.inj_succ, Z2Nat.id by apply Z.log2_nonneg.
  destruct (Z.eq_dec n 0) as [-> | Hz]; [reflexivity |].
  apply Z.log2_spec. lia.
Qed.

Lemma horner_decimal (n : Z) : 0 <= n -> horner 0 (decimal n) = n.
Proof.
  intros Hn. unfold decimal.
  rewrite horner_digits_of by (apply log2_fuel; exact Hn). reflexivity.
Qed.

Lemma all_digits_decimal (n : Z) : 0 <= n -> all_digits (decimal n) = true.
Proof.
  intros Hn. unfold decimal. apply all_digits_digits_of; [exact Hn | reflexivity].
Qed.

Lemma decimal_nonempty (n : Z) : decimal n <> "".
Proof.
  unfold decimal. cbn [digits_of].
  destruct (n / 10 =? 0); [discriminate |].
  apply digits_of_nonempty. discriminate.
Qed.

Lemma horner_nonneg (s : string) :
  forall acc, 0 <= acc -> all_digits s = true -> 0 <= horner acc s.
Proof.
  induction s as [| c s IH]; intros acc Hacc Hs; [exact Hacc |].
  cbn [all_digits] in Hs. apply andb_true_iff in Hs. destruct Hs as [Hc Hs].
  cbn [horner]. apply IH; [| exact Hs].
  pose proof (digit_value_range c Hc). lia.
Qed.

(** [Number] on a run of digits. *)
Lemma Number_digits (s : string) :
  s <> "" -> all_digits s = true -> Number s = round_double (horner 0 s).
Proof.
  intros _ Hs. unfold Number. rewrite Hs. reflexivity.
Qed.

Lemma ToString_nonneg (n : Z) : 0 <= n -> ToString (Int n) = number_digits n.
Proof.
  intros Hn. unfold ToString.
  destruct (n <? 0) eqn:E; [apply Z.ltb_lt in E; lia | reflexivity].
Qed.

End Digits.

(** ** Doubles *)

Section Doubles.

Lemma round_double_small (v : Z) : 0 <= v < 2 ^ 53 -> round_double v = Int v.
Proof.
  intros [H0 H1]. unfold round_double, round_nonneg.
  destruct (v <? 0) eqn:E; [apply Z.ltb_lt in E; lia |].
  destruct (v <? 2 ^ 53) eqn:E'; [reflexivity | apply Z.ltb_ge in E'; lia].
Qed.

(** Beyond [2^53] the integer kept is a multiple of [2^e] not below the one
    under [v], with a quotient of 53 bits. *)
Lemma round_double_large (v : Z) :
  2 ^ 53 <= v ->
  exists e q q' : Z,
    1 <= e /\ e = Z.log2 v - 52 /\ q = v / 2 ^ e /\ 2 ^ 52 <= q /\
    q <= q' <= q + 1 /\
    (round_double v = Int (q' * 2 ^ e) \/ round_double v = Infinity).
Proof.
  intros Hv.
  assert (H53 : 0 < 2 ^ 53) by (apply Z.pow_pos_nonneg; lia).
  assert (Hl : 53 <= Z.log2 v) by (apply Z.log2_le_pow2; lia).
  unfold round_double, round_nonneg.
  destruct (v <? 0) eqn:E; [apply Z.ltb_lt in E; lia |].
  destruct (v <? 2 ^ 53) eqn:E'; [apply Z.ltb_lt in E'; lia |].
  set (e := Z.log2 v - 52). set (q := v / 2 ^ e).
  cbv zeta.
  match goal with
  | |- context [if ?c then q + 1 else q] =>
      set (q' := if c then q + 1 else q)
  end.
  exists e, q, q'.
  assert (He : 1 <= e) by (unfold e; lia).
  assert (Hp : 0 < 2 ^ e) by (apply Z.pow_pos_nonneg; lia).
  assert (Hq : 2 ^ 52 <= q).
  { unfold q. apply Z.div_le_lower_bound; [exact Hp |].
    rewrite <- Z.pow_add_r by lia. replace (e + 52) with (Z.log2 v) by (unfold e; lia).
    apply Z.log2_spec. lia. }
  assert (Hq' : q <= q' <= q + 1).
  { unfold q'. match goal with |- context [if ?c then _ else _] => destruct c end; lia. }
  repeat (split; [first [exact He | exact Hq | exact Hq' | reflexivity] |]).
  destruct (2 ^ 1024 <=? q' * 2 ^ e); auto.
Qed.

Lemma round_double_nonneg (v : Z) : 0 <= v -> nonneg (round_double v).
Proof.
  intros Hv. destruct (Z.lt_ge_cases v (2 ^ 53)) as [L | G].
  - rewrite round_double_small by lia. exact Hv.
  - destruct (round_double_large v G)
      as [e [q [q' [He [_ [_ [Hq [Hq' [-> | ->]]]]]]]]]; cbn [nonneg]; [| exact I].
    assert (0 < 2 ^ e) by (apply Z.pow_pos_nonneg; lia).
    assert (0 < 2 ^ 52) by (apply Z.pow_pos_nonneg; lia).
    apply Z.mul_nonneg_nonneg; lia.
Qed.

Lemma round_double_not_NaN (v : Z) : round_double v <> NaN.
Proof.
  unfold round_double, round_nonneg.
  destruct (v <? 0);
    [destruct (- v <? 2 ^ 53) | destruct (v <? 2 ^ 53)]; cbv zeta; cbn [negate];
    try discriminate;
    match goal with
    | |- context [if ?c then Infinity else _] => destruct c
    end; cbn [negate]; discriminate.
Qed.

(** Rounding does not take an integer below [10^21] above [10^21]. *)
Lemma round_double_lt_1e21 (c d : Z) :
  0 <= c < 10 ^ 21 -> round_double c = Int d -> d <= 10 ^ 21.
Proof.
  intros [H0 Hc] Hd.
  destruct (Z.lt_ge_cases c (2 ^ 53)) as [L | G].
  - rewrite round_double_small in Hd by lia. injection Hd as <-. lia.
  - destruct (round_double_large c G)
      as [e [q [q' [He [Ee [Eq [Hq [Hq' [R | R]]]]]]]]]; rewrite R in Hd;
      [| discriminate Hd].
    injection Hd as <-.
    assert (Hp : 0 < 2 ^ e) by (apply Z.pow_pos_nonneg; lia).
    assert (Hl : Z.log2 c < 70).
    { apply Z.log2_lt_pow2; [lia |].
      apply Z.lt_trans with (10 ^ 21); [exact Hc | reflexivity]. }
    assert (Hk : 10 ^ 21 = (2 ^ (21 - e) * 5 ^ 21) * 2 ^ e).
    { change (10 ^ 21) with (2 ^ 21 * 5 ^ 21).
      rewrite <- Z.mul_assoc, (Z.mul_comm (5 ^ 21)), Z.mul_assoc.
      rewrite <- Z.pow_add_r by lia. replace (21 - e + e) with 21 by lia.
      reflexivity. }
    rewrite Hk. apply Z.mul_le_mono_nonneg_r; [lia |].
    assert (q < 2 ^ (21 - e) * 5 ^ 21); [| lia].
    subst q. apply Z.div_lt_upper_bound; [exact Hp |].
    rewrite Z.mul_comm, <- Hk. exact Hc.
Qed.

(** Rounding does not take an integer from [10^21] on below [10^21]. *)
Lemma round_double_ge_1e21 (c d : Z) :
  10 ^ 21 <= c -> round_double c = Int d -> 10 ^ 21 <= d.
Proof.
  intros Hc Hd.
  assert (H21 : 10 ^ 21 = 2 ^ 21 * 5 ^ 21) by reflexivity.
  assert (Hlt : 2 ^ 53 < 10 ^ 21) by reflexivity.
  destruct (round_double_large c ltac:(lia))
    as [e [q [q' [He [Ee [Eq [Hq [Hq' [R | R]]]]]]]]]; rewrite R in Hd;
    [| discriminate Hd].
  injection Hd as <-.
  assert (Hp : 0 < 2 ^ e) by (apply Z.pow_pos_nonneg; lia).
  apply Z.le_trans with (q * 2 ^ e);
    [| apply Z.mul_le_mono_nonneg_r; lia].
  destruct (Z.le_gt_cases e 21) as [L | G].
  - assert (Hk : 10 ^ 21 = (2 ^ (21 - e) * 5 ^ 21) * 2 ^ e).
    { rewrite H21, <- Z.mul_assoc, (Z.mul_comm (5 ^ 21)), Z.mul_assoc.
      rewrite <- Z.pow_add_r by lia. replace (21 - e + e) with 21 by lia.
      reflexivity. }
    rewrite Hk at 1. apply Z.mul_le_mono_nonneg_r; [lia |].
    subst q. apply Z.div_le_lower_bound; [exact Hp |].
    rewrite Z.mul_comm, <- Hk. exact Hc.
  - apply Z.le_trans with (2 ^ 52 * 2 ^ 22).
    + vm_compute. discriminate.
    + apply Z.mul_le_mono_nonneg;
        [apply Z.pow_nonneg; lia | exact Hq | apply Z.pow_nonneg; lia
        | apply Z.pow_le_mono_r; lia].
Qed.

Lemma rounds_to_spec (c z : Z) :
  rounds_to c z = true <-> round_double c = Int z.
Proof.
  unfold rounds_to. destruct (round_double c) as [d | | |];
    try (split; discriminate).
  split.
  - intros H. apply Z.eqb_eq in H. subst. reflexivity.
  - intros [= ->]. apply Z.eqb_refl.
Qed.

(** What the search returns: [z] itself, or a non-negative integer read as
    the double [z]. *)
Lemma shortest_from_cases (fuel : nat) :
  forall scale z : Z, 0 <= z ->
    shortest_from fuel scale z = z \/
    (0 <= shortest_from fuel scale z /\
     round_double (shortest_from fuel scale z) = Int z).
Proof.
  induction fuel as [| fuel IH]; intros scale z Hz; [left; reflexivity |].
  cbn [shortest_from].
  destruct (scale <=? 1) eqn:Es; [left; reflexivity |].
  apply Z.leb_gt in Es. cbv zeta.
  assert (Hlo : 0 <= z / scale * scale).
  { apply Z.mul_nonneg_nonneg; [apply Z.div_pos |]; lia. }
  set (lo := z / scale * scale) in *.
  set (first := if z - lo <? lo + scale - z then lo
                else if lo + scale - z <? z - lo then lo + scale
                else if Z.even (z / scale) then lo else lo + scale).
  assert (Hf : 0 <= first).
  { unfold first. repeat match goal with |- context [if ?c then _ else _] =>
                           destruct c end; lia. }
  destruct (rounds_to first z) eqn:R1.
  - right. split; [exact Hf | apply rounds_to_spec; exact R1].
  - destruct (rounds_to (if first =? lo then lo + scale else lo) z) eqn:R2.
    + right. split; [destruct (first =? lo); lia | apply rounds_to_spec; exact R2].
    + apply IH. exact Hz.
Qed.

Lemma shortest_cases (z : Z) :
  0 <= z ->
  shortest z = z \/ (0 <= shortest z /\ round_double (shortest z) = Int z).
Proof. intros Hz. unfold shortest. apply shortest_from_cases. exact Hz. Qed.

Lemma shortest_nonneg (z : Z) : 0 <= z -> 0 <= shortest z.
Proof. intros Hz. destruct (shortest_cases z Hz) as [-> | [H _]]; assumption. Qed.

Lemma shortest_rounds (z : Z) :
  0 <= z -> round_double z = Int z -> round_double (shortest z) = Int z.
Proof.
  intros Hz Hd. destruct (shortest_cases z Hz) as [-> | [_ H]]; assumption.
Qed.

Lemma shortest_plain (z : Z) : plain z -> 0 <= shortest z < 10 ^ 21.
Proof.
  intros [Hd Hz]. split; [apply shortest_nonneg; lia |].
  destruct (shortest_cases z ltac:(lia)) as [-> | [_ H]]; [lia |].
  destruct (Z.lt_ge_cases (shortest z) (10 ^ 21)) as [L | G]; [exact L |].
  pose proof (round_double_ge_1e21 _ _ G H). lia.
Qed.

(** Below [2^53] every integer is a double and is written with its own
    digits. *)
Lemma plain_small (z : Z) : 0 <= z < 2 ^ 53 -> plain z.
Proof.
  intros H. split; [apply round_double_small; exact H |].
  assert (2 ^ 53 < 10 ^ 21) by reflexivity. lia.
Qed.

Lemma shortest_small (z : Z) : 0 <= z < 2 ^ 53 -> shortest z = z.
Proof.
  intros Hz. destruct (shortest_cases z ltac:(lia)) as [E | [Hp H]]; [exact E |].
  destruct (Z.lt_ge_cases (shortest z) (2 ^ 53)) as [L | G].
  - rewrite round_double_small in H by lia. injection H. auto.
  - destruct (round_double_large _ G)
      as [e [q [q' [He [_ [_ [Hq [Hq' [R | R]]]]]]]]]; rewrite R in H;
      [| discriminate H].
    injection H as H.
    assert (2 ^ 52 * 2 ^ 1 <= q' * 2 ^ e).
    { apply Z.mul_le_mono_nonneg;
        [apply Z.pow_nonneg; lia | lia | apply Z.pow_nonneg; lia
        | apply Z.pow_le_mono_r; lia]. }
    assert (2 ^ 52 * 2 ^ 1 = 2 ^ 53) by reflexivity. lia.
Qed.

(** What is written for a plain number is a run of digits that [Number]
    reads back as that number. *)
Lemma number_digits_plain (z : Z) :
  plain z -> number_digits z = decimal (shortest z).
Proof.
  intros H. unfold number_digits.
  destruct (shortest z <? 10 ^ 21) eqn:E; [reflexivity |].
  apply Z.ltb_ge in E. pose proof (shortest_plain z H). lia.
Qed.

Lemma ToString_plain (z : Z) :
  plain z -> ToString (Int z) = decimal (shortest z).
Proof.
  intros H. rewrite ToString_nonneg by (destruct H; lia).
  apply number_digits_plain. exact H.
Qed.

Lemma ToString_small (z : Z) :
  0 <= z < 2 ^ 53 -> ToString (Int z) = decimal z.
Proof.
  intros H. rewrite ToString_plain by (apply plain_small; exact H).
  rewrite shortest_small by exact H. reflexivity.
Qed.

Lemma Number_ToString_plain (z : Z) :
  plain z -> Number (ToString (Int z)) = Int z.
Proof.
  intros H. pose proof (shortest_plain z H) as [Hs _].
  rewrite ToString_plain by exact H.
  rewrite Number_digits
    by (apply decimal_nonempty || (apply all_digits_decimal; exact Hs)).
  rewrite horner_decimal by exact Hs.
  apply shortest_rounds; destruct H; [lia | assumption].
Qed.

End Doubles.

(** ** The matcher decides the pattern *)

Section Matcher.

Import RegExp.

Lemma append_empty (s1 s2 : string) :
  (s1 ++ s2)%string = "" -> s1 = "" /\ s2 = "".
Proof. destruct s1; [auto | discriminate]. Qed.

Lemma append_cons (s1 s2 : string) c s :
  (s1 ++ s2)%string = String c s ->
  (s1 = "" /\ s2 = String c s) \/
  (exists s1', s1 = String c s1' /\ s = (s1' ++ s2)%string).
Proof.
  destruct s1 as [| c1 s1]; cbn [append]; intros H.
  - left. auto.
  - injection H as -> <-. right. eauto.
Qed.

Lemma append_empty_r (s : string) : (s ++ "")%string = s.
Proof. induction s as [| c s IH]; cbn [append]; [| rewrite IH]; reflexivity. Qed.

Lemma nullable_matches (r : regexp) : nullable r = true <-> matches r "".
Proof.
  induction r as [| | c | | r1 IH1 r2 IH2 | r1 IH1 r2 IH2 | r IH]; cbn [nullable].
  - split; [discriminate | intros H; inversion H].
  - split; [intros _; constructor | reflexivity].
  - split; [discriminate | intros H; inversion H].
  - split; [discriminate | intros H; inversion H].
  - rewrite andb_true_iff, IH1, IH2. split.
    + intros [H1 H2]. exact (MSeq _ _ _ _ H1 H2).
    + intros H. inversion H as [| | | ? ? s1 s2 H1 H2 | | | |]; subst.
      match goal with
      | E : (_ ++ _)%string = "" |- _ =>
          apply append_empty in E; destruct E; subst; auto
      end.
  - rewrite orb_true_iff, IH1, IH2. split.
    + intros [H | H]; [apply MAltL | apply MAltR]; exact H.
    + intros H. inversion H; subst; auto.
  - split; [intros _; constructor | reflexivity].
Qed.

Lemma deriv_sound (r : regexp) :
  forall c s, matches (deriv c r) s -> matches r (String c s).
Proof.
  induction r as [| | c' | | r1 IH1 r2 IH2 | r1 IH1 r2 IH2 | r IH];
    intros c s H; cbn [deriv] in H.
  - inversion H.
  - inversion H.
  - destruct (Ascii.eqb_spec c c') as [-> |]; inversion H; subst. constructor.
  - destruct (is_digit c) eqn:E; inversion H; subst. constructor. exact E.
  - assert (Hseq : forall w, matches (Seq (deriv c r1) r2) w ->
                            matches (Seq r1 r2) (String c w)).
    { intros w Hw. inversion Hw as [| | | ? ? s1 s2 H1 H2 | | | |]; subst.
      apply IH1 in H1. exact (MSeq _ _ _ _ H1 H2). }
    destruct (nullable r1) eqn:N.
    + inversion H; subst; [apply Hseq; assumption |].
      apply nullable_matches in N.
      change (String c s) with ("" ++ String c s)%string.
      apply MSeq; [exact N | apply IH2; assumption].
    + apply Hseq; assumption.
  - inversion H; subst; [apply MAltL; apply IH1 | apply MAltR; apply IH2]; assumption.
  - inversion H as [| | | ? ? s1 s2 H1 H2 | | | |]; subst.
    apply IH in H1. exact (MStarS _ _ _ H1 H2).
Qed.

Lemma deriv_complete (r : regexp) (w : string) :
  matches r w -> forall c s, w = String c s -> matches (deriv c r) s.
Proof.
  induction 1 as [| c' | c' Hd | r1 r2 s1 s2 H1 IH1 H2 IH2 | r1 r2 s0 H IH
                 | r1 r2 s0 H IH | r | r s1 s2 H1 IH1 H2 IH2];
    intros c s E; cbn [deriv].
  - discriminate.
  - injection E as -> <-. rewrite Ascii.eqb_refl. constructor.
  - injection E as -> <-. rewrite Hd. constructor.
  - apply append_cons in E. destruct E as [[-> ->] | [s1' [-> ->]]].
    + apply nullable_matches in H1. rewrite H1.
      apply MAltR. apply IH2. reflexivity.
    + assert (Hs : matches (Seq (deriv c r1) r2) (s1' ++ s2)).
      { apply MSeq; [apply IH1; reflexivity | exact H2]. }
      destruct (nullable r1); [apply MAltL |]; exact Hs.
  - apply MAltL. apply IH. exact E.
  - apply MAltR. apply IH. exact E.
  - discriminate.
  - apply append_cons in E. destruct E as [[-> ->] | [s1' [-> ->]]].
    + apply (IH2 c s eq_refl).
    + apply MSeq; [apply IH1; reflexivity | exact H2].
Qed.

Lemma test_matches (s : string) :
  forall r, test r s = true <-> matches r s.
Proof.
  induction s as [| c s IH]; intros r; cbn [test].
  - apply nullable_matches.
  - rewrite IH. split.
    + apply deriv_sound.
    + intros H. exact (deriv_complete _ _ H c s eq_refl).
Qed.

(** [\d*] and [\d+] *)
Lemma star_digit (s : string) :
  matches (Star Digit) s <-> all_digits s = true.
Proof.
  split.
  - intros H. remember (Star Digit) as r eqn:Er.
    induction H as [| | | | | | r0 | r0 s1 s2 H1 _ H2 IH2]; try discriminate.
    + reflexivity.
    + injection Er as ->. inversion H1 as [| | c Hc | | | | |]; subst.
      cbn [append all_digits]. rewrite Hc. apply IH2. reflexivity.
  - induction s as [| c s IH]; cbn [all_digits]; intros H.
    + constructor.
    + apply andb_true_iff in H. destruct H as [Hc Hs].
      change (String c s) with (String c "" ++ s)%string.
      apply MStarS; [constructor; exact Hc | apply IH; exact Hs].
Qed.

Lemma plus_digit (s : string) :
  matches (Plus Digit) s <-> s <> "" /\ all_digits s = true.
Proof.
  unfold Plus. split.
  - intros H. inversion H as [| | | ? ? s1 s2 H1 H2 | | | |]; subst.
    inversion H1 as [| | c Hc | | | | |]; subst.
    apply star_digit in H2. cbn [append all_digits]. rewrite Hc.
    split; [discriminate | exact H2].
  - intros [Hne H]. destruct s as [| c s]; [contradiction |].
    cbn [all_digits] in H. apply andb_true_iff in H. destruct H as [Hc Hs].
    change (String c s) with (String c "" ++ s)%string.
    apply MSeq; [constructor; exact Hc | apply star_digit; exact Hs].
Qed.

End Matcher.

(** ** The fragment pattern and the initializer *)

Section Fragment.

Import RegExp.

Lemma matches_lit_seq c r s :
  matches (Seq (Lit c) r) s <-> exists s', s = String c s' /\ matches r s'.
Proof.
  split.
  - intros H. inversion H as [| | | ? ? s1 s2 H1 H2 | | | |]; subst.
    inversion H1; subst. cbn [append]. eauto.
  - intros [s' [-> H]]. change (String c s') with (String c "" ++ s')%string.
    apply MSeq; [constructor | exact H].
Qed.

Lemma matches_opt r s : matches (Opt r) s <-> matches r s \/ s = "".
Proof.
  unfold Opt. split.
  - intros H. inversion H as [| | | | ? ? ? H1 | ? ? ? H1 | |]; subst; [left; exact H1 |].
    inversion H1. right; reflexivity.
  - intros [H | ->]; [apply MAltL; exact H | apply MAltR; constructor].
Qed.

(** What [/^#L\d+(-\d+)?$/] accepts. *)
Lemma hash_re_shape (s : string) :
  matches hash_re s <->
  exists ds, digit_run ds /\
    (s = ("#L" ++ ds)%string \/
     exists de, digit_run de /\ s = ("#L" ++ ds ++ "-" ++ de)%string).
Proof.
  unfold hash_re, digit_run. split.
  - intros H.
    apply matches_lit_seq in H. destruct H as [s1 [-> H]].
    apply matches_lit_seq in H. destruct H as [s2 [-> H]].
    inversion H as [| | | ? ? ds t Hds Ht | | | |]; subst.
    apply plus_digit in Hds. exists ds. split; [exact Hds |].
    apply matches_opt in Ht. destruct Ht as [Ht | ->].
    + right. apply matches_lit_seq in Ht. destruct Ht as [de [-> Hde]].
      apply plus_digit in Hde. exists de. split; [exact Hde | reflexivity].
    + left. rewrite append_empty_r. reflexivity.
  - intros [ds [Hds [-> | [de [Hde ->]]]]];
      cbn [append]; apply matches_lit_seq; eexists; (split; [reflexivity |]);
      apply matches_lit_seq; eexists; (split; [reflexivity |]).
    + rewrite <- (append_empty_r ds). apply MSeq; [apply plus_digit; exact Hds |].
      apply matches_opt. right; reflexivity.
    + apply MSeq; [apply plus_digit; exact Hds |].
      apply matches_opt. left. apply matches_lit_seq.
      eexists; split; [reflexivity | apply plus_digit; exact Hde].
Qed.

Lemma digit_not_dash c : is_digit c = true -> Ascii.eqb c "-" = false.
Proof.
  intros H. destruct (Ascii.eqb_spec c "-") as [-> |]; [| reflexivity].
  rewrite dash_not_digit in H. discriminate.
Qed.

Lemma split_digits (ds : string) :
  all_digits ds = true -> split "-" ds = (ds, []).
Proof.
  induction ds as [| c ds IH]; cbn [all_digits split]; intros H; [reflexivity |].
  apply andb_true_iff in H. destruct H as [Hc Hs].
  rewrite (IH Hs), (digit_not_dash c Hc). reflexivity.
Qed.

Lemma split_digits_dash (ds rest : string) :
  all_digits ds = true ->
  split "-" (ds ++ String "-" rest) =
  (ds, fst (split "-" rest) :: snd (split "-" rest)).
Proof.
  induction ds as [| c ds IH]; cbn [all_digits append]; intros H.
  - cbn [split]. destruct (split "-" rest) as [p ps]. reflexivity.
  - apply andb_true_iff in H. destruct H as [Hc Hs].
    cbn [split]. rewrite (IH Hs), (digit_not_dash c Hc). reflexivity.
Qed.

(** The pieces handed to [Number] behind the pattern are runs of digits. *)
Lemma pieces_are_digits (hash : string) :
  test hash_re hash = true ->
  let '(p, ps) := split "-" (substring_from 2 hash) in
  digit_run p /\ (ps = [] \/ exists q, ps = [q] /\ digit_run q).
Proof.
  intros H. apply test_matches, hash_re_shape in H.
  destruct H as [ds [Hds [-> | [de [Hde ->]]]]]; cbn [append substring_from].
  - rewrite split_digits by apply Hds. auto.
  - rewrite split_digits_dash by apply Hds.
    rewrite split_digits by apply Hde. cbn [fst snd]. eauto.
Qed.

Lemma Number_not_NaN (ds : string) :
  all_digits ds = true -> isNaN (Some (Number ds)) = false.
Proof.
  intros H. unfold Number. rewrite H.
  pose proof (round_double_not_NaN (horner 0 ds)).
  destruct (round_double (horner 0 ds)); [reflexivity | contradiction | |];
    reflexivity.
Qed.

Lemma initial_selected_single (ds : string) :
  digit_run ds ->
  initial_selected ("#L" ++ ds) = (Number ds, Number ds).
Proof.
  intros Hds. unfold initial_selected.
  replace (test hash_re ("#L" ++ ds)) with true
    by (symmetry; apply test_matches, hash_re_shape; eauto).
  cbn [append substring_from].
  rewrite split_digits by apply Hds. reflexivity.
Qed.

Lemma initial_selected_range (ds de : string) :
  digit_run ds -> digit_run de ->
  initial_selected ("#L" ++ ds ++ "-" ++ de) = (Number ds, Number de).
Proof.
  intros Hds Hde. unfold initial_selected.
  replace (test hash_re ("#L" ++ ds ++ "-" ++ de)) with true
    by (symmetry; apply test_matches, hash_re_shape; eauto 6).
  cbn [append substring_from].
  rewrite split_digits_dash by apply Hds.
  rewrite split_digits by apply Hde. cbn [fst snd hd_error option_map].
  rewrite Number_not_NaN by apply Hde. reflexivity.
Qed.

Lemma initial_selected_no_match (hash : string) :
  test hash_re hash = false -> initial_selected hash = (Int (-1), Int (-1)).
Proof. intros H. unfold initial_selected. rewrite H. reflexivity. Qed.

Lemma digit_run_decimal (n : Z) : 0 <= n -> digit_run (decimal n).
Proof.
  intros Hn. split; [apply decimal_nonempty | apply all_digits_decimal; exact Hn].
Qed.

End Fragment.

(** ** Serialization, and parsing what was serialized *)

Section RoundTrip.

Lemma strict_eq_Int (a b : Z) : strict_eq (Int a) (Int b) = (a =? b).
Proof. reflexivity. Qed.

Lemma hash_of_Int (a b : Z) :
  hash_of (Int a, Int b) =
  if a =? -1 then ""
  else if a =? b then ("#L" ++ ToString (Int a))%string
  else ("#L" ++ ToString (Int (Z.min a b)) ++ "-" ++ ToString (Int (Z.max a b)))%string.
Proof.
  unfold hash_of, strict_neq. rewrite !strict_eq_Int, (Z.eqb_sym b a).
  destruct (a =? -1), (a =? b); reflexivity.
Qed.

Lemma plain_nonneg (z : Z) : plain z -> 0 <= z.
Proof. intros [_ H]. lia. Qed.

Lemma plain_min (a b : Z) : plain a -> plain b -> plain (Z.min a b).
Proof.
  intros Ha Hb. destruct (Z.min_spec a b) as [[_ ->] | [_ ->]]; assumption.
Qed.

Lemma plain_max (a b : Z) : plain a -> plain b -> plain (Z.max a b).
Proof.
  intros Ha Hb. destruct (Z.max_spec a b) as [[_ ->] | [_ ->]]; assumption.
Qed.

Lemma digit_run_ToString (z : Z) : plain z -> digit_run (ToString (Int z)).
Proof.
  intros H. rewrite ToString_plain by exact H.
  apply digit_run_decimal. apply shortest_plain. exact H.
Qed.

(** A pair of plain numbers is read back in order. *)
Lemma round_trip (a b : Z) :
  plain a -> plain b ->
  initial_selected (hash_of (Int a, Int b)) = (Int (Z.min a b), Int (Z.max a b)).
Proof.
  intros Ha Hb. rewrite hash_of_Int.
  pose proof (plain_nonneg a Ha). pose proof (plain_nonneg b Hb).
  destruct (a =? -1) eqn:E1; [apply Z.eqb_eq in E1; lia |].
  destruct (a =? b) eqn:E2.
  - apply Z.eqb_eq in E2. subst b. rewrite Z.min_id, Z.max_id.
    rewrite initial_selected_single by (apply digit_run_ToString; exact Ha).
    rewrite Number_ToString_plain by exact Ha. reflexivity.
  - rewrite initial_selected_range
      by (apply digit_run_ToString; (apply plain_min || apply plain_max);
          assumption).
    rewrite !Number_ToString_plain
      by ((apply plain_min || apply plain_max); assumption).
    reflexivity.
Qed.

Lemma Number_nonneg (ds : string) : all_digits ds = true -> nonneg (Number ds).
Proof.
  intros H. unfold Number. rewrite H.
  apply round_double_nonneg. apply horner_nonneg; [lia | exact H].
Qed.

(** What the initializer returns: the empty selection, or two numbers at
    least 0. *)
Lemma initial_selected_cases (hash : string) :
  (RegExp.test hash_re hash = false /\
   initial_selected hash = (Int (-1), Int (-1))) \/
  (RegExp.test hash_re hash = true /\
   nonneg (fst (initial_selected hash)) /\
   nonneg (snd (initial_selected hash))).
Proof.
  destruct (RegExp.test hash_re hash) eqn:T.
  - right. split; [reflexivity |].
    apply test_matches, hash_re_shape in T.
    destruct T as [ds [Hds [-> | [de [Hde ->]]]]].
    + rewrite initial_selected_single by exact Hds.
      split; apply Number_nonneg, Hds.
    + rewrite initial_selected_range by assumption.
      split; apply Number_nonneg; [apply Hds | apply Hde].
  - left. split; [reflexivity | apply initial_selected_no_match; exact T].
Qed.

End RoundTrip.

(** ** The selection store *)

Section SelectionStore.

(** C1.  [toggleSelected], on the current selection [(a, b)], a line and the
    shift key of the click, follows the three cases in guard order: the
    selected single line clicked again clears the selection to [(-1, -1)];
    otherwise an empty selection or a click without shift gives
    [(line, line)]; otherwise the anchor [a] is kept and the selection
    becomes [(a, line)].  Exactly one of the three cases applies. *)
Theorem C1_toggle_three_cases :
  forall (a b line : Z) (e : MouseEvent),
    let shiftHeld := shiftKey e in
    let r := toggleSelected (Int a, Int b) (Int line) e in
    let collapse := (a =? line) && (b =? line) in
    let replace := negb collapse && ((a =? -1) || negb shiftHeld) in
    let extend := negb collapse && negb ((a =? -1) || negb shiftHeld) in
    r = (if collapse then (Int (-1), Int (-1))
         else if (a =? -1) || negb shiftHeld then (Int line, Int line)
         else (Int a, Int line))
    /\ (if collapse then r = (Int (-1), Int (-1)) else True)
    /\ (if replace then r = (Int line, Int line) else True)
    /\ (if extend then r = (Int a, Int line) else True)
    /\ ((collapse, replace, extend) = (true, false, false)
        \/ (collapse, replace, extend) = (false, true, false)
        \/ (collapse, replace, extend) = (false, false, true)).
Proof.
  intros a b line e. cbv zeta. unfold toggleSelected.
  rewrite !strict_eq_Int.
  destruct ((a =? line) && (b =? line)), (a =? -1), (shiftKey e); cbn;
    repeat split; auto.
Qed.

(** C2.  The fragment written for a selection [(a, b)]: empty when
    [a = -1]; otherwise, with [start = min a b] and [end = max a b],
    [#L<start>] when they are equal and [#L<start>-<end>] when they differ.
    The order is computed for the fragment only: the stored pair keeps the
    order in which it was made. *)
Theorem C2_fragment_of_selection :
  (forall a b : Z,
     hash_of (Int a, Int b) =
     if a =? -1 then ""
     else
       let start := Z.min a b in
       let end_ := Z.max a b in
       if start =? end_ then ("#L" ++ ToString (Int start))%string
       else ("#L" ++ ToString (Int start) ++ "-" ++ ToString (Int end_))%string)
  /\ (forall v lineNo e,
        selected (toggle v lineNo e) = toggleSelected (selected v) lineNo e
        /\ location_hash (toggle v lineNo e) = hash_of (selected (toggle v lineNo e)))
  /\ (forall hash, selected (mount hash) = initial_selected hash)
  /\ (let v := toggle (mount "#L4") (Int 2) (with_shift true) in
      selected v = (Int 4, Int 2) /\ location_hash v = "#L2-4")
  /\ (let v := mount "#L9-3" in
      selected v = (Int 9, Int 3) /\ location_hash v = "#L3-9").
Proof.
  split; [| repeat split].
  intros a b. rewrite hash_of_Int. cbv zeta.
  destruct (a =? -1); [reflexivity |].
  destruct (a =? b) eqn:E.
  - apply Z.eqb_eq in E. subst b.
    rewrite Z.min_id, Z.max_id, Z.eqb_refl. reflexivity.
  - apply Z.eqb_neq in E.
    replace (Z.min a b =? Z.max a b) with false; [reflexivity |].
    symmetry. apply Z.eqb_neq. lia.
Qed.

(** C3.  The initial selection.  A fragment accepted by
    [/^#L\d+(-\d+)?$/] is [#L<start>] or [#L<start>-<end>] and gives
    [(start, start)] or [(start, end)]; every other fragment gives
    [(-1, -1)].  The initializer is a total function: no fragment makes it
    fail. *)
Theorem C3_initial_selection :
  (forall hash : string,
     (RegExp.test hash_re hash = true /\
      exists ds, digit_run ds /\
        ((hash = ("#L" ++ ds)%string /\
          initial_selected hash = (Number ds, Number ds)) \/
         (exists de, digit_run de /\
            hash = ("#L" ++ ds ++ "-" ++ de)%string /\
            initial_selected hash = (Number ds, Number de))))
     \/ (RegExp.test hash_re hash = false /\
         initial_selected hash = (Int (-1), Int (-1))))
  /\ initial_selected "#L5" = (Int 5, Int 5)
  /\ initial_selected "#L3-9" = (Int 3, Int 9)
  /\ initial_selected "#Lxyz" = (Int (-1), Int (-1))
  /\ initial_selected "" = (Int (-1), Int (-1)).
Proof.
  split; [| repeat split].
  intros hash. destruct (RegExp.test hash_re hash) eqn:T.
  - left. split; [reflexivity |].
    apply test_matches, hash_re_shape in T.
    destruct T as [ds [Hds [-> | [de [Hde ->]]]]]; exists ds; (split; [exact Hds |]).
    + left. split; [reflexivity |].
      apply initial_selected_single. exact Hds.
    + right. exists de. split; [exact Hde |]. split; [reflexivity |].
      apply initial_selected_range; assumption.
  - right. split; [reflexivity | apply initial_selected_no_match; exact T].
Qed.

(** C4.  From the empty selection: a click on line 4 gives [(4, 4)] and
    [#L4]; a shift-click on line 2 gives [(4, 2)] and [#L2-4]; a click on
    line 4 without shift gives [(4, 4)] and [#L4].  A click without shift
    on an end of a range of several lines selects that line alone. *)
Theorem C4_click_scenario :
  let v0 := mount "" in
  let v1 := on_click v0 (Some (gutter_click "4" false)) in
  let v2 := on_click v1 (Some (gutter_click "2" true)) in
  let v3 := on_click v2 (Some (gutter_click "4" false)) in
  v0 = {| selected := (Int (-1), Int (-1)); location_hash := "" |}
  /\ v1 = {| selected := (Int 4, Int 4); location_hash := "#L4" |}
  /\ v2 = {| selected := (Int 4, Int 2); location_hash := "#L2-4" |}
  /\ v3 = {| selected := (Int 4, Int 4); location_hash := "#L4" |}
  /\ (forall a b : Z,
        toggleSelected (Int a, Int b) (Int a) (with_shift false) =
          (if b =? a then (Int (-1), Int (-1)) else (Int a, Int a))
        /\ toggleSelected (Int a, Int b) (Int b) (with_shift false) =
          (if a =? b then (Int (-1), Int (-1)) else (Int b, Int b))).
Proof.
  repeat split.
  - unfold toggleSelected. rewrite !strict_eq_Int, Z.eqb_refl.
    destruct (b =? a), (a =? -1); reflexivity.
  - unfold toggleSelected. rewrite !strict_eq_Int, Z.eqb_refl.
    destruct (a =? b), (a =? -1); reflexivity.
Qed.

(** C5, as the code has it.  Writing a selection of two plain numbers
    (doubles that are integers at least 0 and below [10^21]) to the fragment
    and reading the fragment back gives [(min a b, min a b)] when [a = b]
    and [(min a b, max a b)] otherwise; doing it once more changes
    nothing. *)
Theorem C5_fragment_round_trip :
  forall a b : Z, plain a -> plain b ->
    let once := initial_selected (hash_of (Int a, Int b)) in
    once = (Int (Z.min a b), Int (if a =? b then Z.min a b else Z.max a b))
    /\ initial_selected (hash_of once) = once.
Proof.
  intros a b Ha Hb. cbv zeta.
  pose proof (plain_min a b Ha Hb) as Hlo.
  pose proof (plain_max a b Ha Hb) as Hhi.
  pose proof (plain_nonneg a Ha). pose proof (plain_nonneg b Hb).
  rewrite round_trip by assumption.
  rewrite round_trip by assumption.
  rewrite (Z.min_l (Z.min a b) (Z.max a b)) by lia.
  rewrite (Z.max_r (Z.min a b) (Z.max a b)) by lia.
  split; [| reflexivity].
  destruct (a =? b) eqn:E; [| reflexivity].
  apply Z.eqb_eq in E. subst b. rewrite Z.min_id, Z.max_id. reflexivity.
Qed.

Lemma C5_fragment_round_trip_witness :
  plain 4 /\ plain 2 /\
  initial_selected (hash_of (Int 4, Int 2)) = (Int 2, Int 4) /\
  initial_selected (hash_of (Int 2, Int 4)) = (Int 2, Int 4).
Proof.
  assert (Ha : plain 4) by (split; [reflexivity | split; [discriminate | reflexivity]]).
  assert (Hb : plain 2) by (split; [reflexivity | split; [discriminate | reflexivity]]).
  split; [exact Ha |]. split; [exact Hb |].
  destruct (C5_fragment_round_trip 4 2 Ha Hb) as [H1 H2].
  split; [exact H1 |].
  rewrite H1 in H2. exact H2.
Defined.

(** C5, as the claim states it, fails: the fragment
    [#L1000000000000000000000] is accepted and gives the selection
    [(10^21, 10^21)], which is written [#L1e+21]; the pattern rejects that,
    so it is read back as [(-1, -1)] and not as [(10^21, 10^21)]. *)
Lemma C5_exponent_form_not_read_back :
  reachable (Int (10 ^ 21), Int (10 ^ 21))
  /\ hash_of (Int (10 ^ 21), Int (10 ^ 21)) = "#L1e+21"
  /\ initial_selected (hash_of (Int (10 ^ 21), Int (10 ^ 21))) =
     (Int (-1), Int (-1))
  /\ initial_selected (hash_of (Int (10 ^ 21), Int (10 ^ 21))) <>
     (Int (Z.min (10 ^ 21) (10 ^ 21)), Int (Z.min (10 ^ 21) (10 ^ 21))).
Proof.
  assert (E : initial_selected "#L1000000000000000000000" =
              (Int (10 ^ 21), Int (10 ^ 21))) by (vm_compute; reflexivity).
  assert (W : hash_of (Int (10 ^ 21), Int (10 ^ 21)) = "#L1e+21")
    by (vm_compute; reflexivity).
  split; [rewrite <- E; apply reach_init |].
  split; [exact W |]. rewrite W.
  split; [reflexivity |].
  vm_compute. discriminate.
Qed.


End SelectionStore.

(** ** Reachable selections *)

Section Invariant.

Lemma toggleSelected_keeps_nonneg (s : selection) (line : Z) (e : MouseEvent) :
  0 <= line ->
  s = (Int (-1), Int (-1)) \/ (nonneg (fst s) /\ nonneg (snd s)) ->
  toggleSelected s (Int line) e = (Int (-1), Int (-1)) \/
  (nonneg (fst (toggleSelected s (Int line) e)) /\
   nonneg (snd (toggleSelected s (Int line) e))).
Proof.
  intros Hl H. destruct s as [s0 s1]. unfold toggleSelected.
  destruct (strict_eq s0 (Int line) && strict_eq s1 (Int line));
    [left; reflexivity |].
  destruct (strict_eq s0 (Int (-1)) || negb (shiftKey e)) eqn:G.
  - right. cbn [fst snd nonneg]. auto.
  - right. cbn [fst snd]. split; [| exact Hl].
    destruct H as [[= -> ->] | [H _]]; [| exact H].
    cbn in G. discriminate G.
Qed.

(** C7, as the code has it.  Every reachable selection (the initial one,
    for any fragment, and the result of any sequence of [toggleSelected]
    calls with positive line numbers) is [(-1, -1)] or a pair of numbers
    that are both at least 0, in either order: integers at least 0, or
    [Infinity] when the digits of the fragment overflow a double; never
    [NaN]. *)
Theorem C7_reachable_selection :
  forall s : selection, reachable s ->
    s = (Int (-1), Int (-1)) \/ (nonneg (fst s) /\ nonneg (snd s)).
Proof.
  intros s H. induction H as [hash | s line e H IH Hl].
  - destruct (initial_selected_cases hash) as [[_ E] | [_ HH]].
    + left. exact E.
    + right. exact HH.
  - apply toggleSelected_keeps_nonneg; [lia | exact IH].
Qed.

Lemma C7_reachable_selection_witness :
  reachable (toggleSelected (initial_selected "#L4") (Int 2) (with_shift true))
  /\ nonneg (fst (toggleSelected (initial_selected "#L4") (Int 2)
                    (with_shift true)))
  /\ nonneg (snd (toggleSelected (initial_selected "#L4") (Int 2)
                    (with_shift true))).
Proof.
  assert (R : reachable
                (toggleSelected (initial_selected "#L4") (Int 2) (with_shift true))).
  { apply reach_toggle; [apply reach_init | lia]. }
  split; [exact R |].
  destruct (C7_reachable_selection _ R) as [E | H].
  - vm_compute in E. discriminate E.
  - exact H.
Defined.

(** C7, as the claim states it, fails: the fragment [#L0] is accepted and
    gives the selection [(0, 0)], which is neither empty nor a pair of
    positive line numbers. *)
Lemma C7_line_zero_reachable :
  reachable (Int 0, Int 0)
  /\ ~ ((Int 0, Int 0) = (Int (-1), Int (-1))
        \/ exists a b : Z, (Int 0, Int 0) = (Int a, Int b) /\ 0 < a /\ 0 < b).
Proof.
  split.
  - exact (reach_init "#L0").
  - intros [E | [a [b [E [Ha Hb]]]]]; [discriminate E |].
    injection E as <- <-. lia.
Qed.

End Invariant.

(** ** The highlight binder *)

Section HighlightBinder.

Lemma new_Range_lines (a b : Z) :
  new_Range (Int a) (Int 1) (Int b) (Int 1) =
  {| startLineNumber := Int (Z.min a b); startColumn := Int 1;
     endLineNumber := Int (Z.max a b); endColumn := Int 1 |}.
Proof.
  unfold new_Range. cbn [gt strict_eq].
  replace (1 <? 1) with false by reflexivity. rewrite andb_false_r, orb_false_r.
  destruct (b <? a) eqn:E.
  - apply Z.ltb_lt in E. rewrite Z.min_r, Z.max_l by lia. reflexivity.
  - apply Z.ltb_ge in E. rewrite Z.min_l, Z.max_r by lia. reflexivity.
Qed.

(** C6.  For a non-empty selection [(a, b)] the effect asks for one
    whole-line decoration of class [highlighted-line] whose range runs from
    line [min a b] to line [max a b]: the range built from [a] and [b] is in
    order also when the stored pair has [a > b]. *)
Theorem C6_highlight_request :
  forall (a b : Z) (decorations : list string), a <> -1 ->
    let r := highlight_effect true true (Int a, Int b) decorations in
    let lines lo hi :=
      {| startLineNumber := Int lo; startColumn := Int 1;
         endLineNumber := Int hi; endColumn := Int 1 |} in
    hd_error (calls r) =
      Some (deltaDecorations []
              [ {| range := lines (Z.min a b) (Z.max a b);
                   options := {| isWholeLine := true;
                                 linesDecorationsClassName := "highlighted-line" |} |} ])
    /\ requested_range r = Some (lines (Z.min a b) (Z.max a b)).
Proof.
  intros a b ids Ha. cbv zeta.
  unfold requested_range, highlight_effect. rewrite !strict_eq_Int.
  apply Z.eqb_neq in Ha. rewrite Ha. cbn [negb orb calls hd_error range].
  rewrite new_Range_lines. split; reflexivity.
Qed.

Lemma C6_highlight_request_witness :
  4 <> -1 /\
  requested_range (highlight_effect true true (Int 4, Int 2) []) =
    Some {| startLineNumber := Int 2; startColumn := Int 1;
            endLineNumber := Int 4; endColumn := Int 1 |}.
Proof.
  assert (H : 4 <> -1) by lia.
  split; [exact H |].
  exact (proj2 (C6_highlight_request 4 2 [] H)).
Defined.

(** C8, as the code has it.  For a non-empty selection [(a, b)] the effect
    reveals line [a] with [revealLineInCenterIfOutsideViewport] when
    [a = b], and the lines [a], [b] (stored order) with
    [revealLinesInCenterIfOutsideViewport] otherwise: both center what they
    reveal when it lies outside the viewport. *)
Theorem C8_reveal_request :
  forall (a b : Z) (decorations : list string), a <> -1 ->
    let r := highlight_effect true true (Int a, Int b) decorations in
    let c := if a =? b then revealLineInCenterIfOutsideViewport (Int a)
             else revealLinesInCenterIfOutsideViewport (Int a) (Int b) in
    requested_reveal r = Some c
    /\ reveal_type c = Some CenterIfOutsideViewport.
Proof.
  intros a b ids Ha. cbv zeta.
  unfold requested_reveal, highlight_effect. rewrite !strict_eq_Int.
  apply Z.eqb_neq in Ha. rewrite Ha. cbn.
  destruct (a =? b); split; reflexivity.
Qed.

Lemma C8_reveal_request_witness :
  7 <> -1 /\
  requested_reveal (highlight_effect true true (Int 7, Int 7) []) =
    Some (revealLineInCenterIfOutsideViewport (Int 7)).
Proof.
  assert (H : 7 <> -1) by lia.
  split; [exact H |].
  exact (proj1 (C8_reveal_request 7 7 [] H)).
Defined.

(** C8, as the claim states it, fails: for the range [(2, 4)] the reveal
    call is [revealLinesInCenterIfOutsideViewport], which centers the range
    when it is outside the viewport, and not a plain reveal. *)
Lemma C8_range_reveal_centers :
  exists c : editor_call,
    requested_reveal (highlight_effect true true (Int 2, Int 4) []) = Some c
    /\ c = revealLinesInCenterIfOutsideViewport (Int 2) (Int 4)
    /\ reveal_type c = Some CenterIfOutsideViewport
    /\ reveal_type c <> Some Simple.
Proof.
  eexists. split; [reflexivity |]. split; [reflexivity |].
  split; [reflexivity | discriminate].
Qed.

End HighlightBinder.

(** ** Click routing *)

Section ClickRouting.

Lemma contains_In (cl : list string) (name : string) :
  contains cl name = true <-> In name cl.
Proof.
  unfold contains. rewrite existsb_exists. split.
  - intros [x [Hx E]]. apply String.eqb_eq in E. subst x. exact Hx.
  - intros H. exists name. split; [exact H | apply String.eqb_refl].
Qed.

(** [parseInt] finds no number in the empty string, nor in a string whose
    first character is neither white space, a sign nor a digit. *)
Lemma parseInt_not_numeric (c : ascii) (s : string) :
  is_space c = false -> is_digit c = false ->
  c <> "-"%char -> c <> "+"%char ->
  parseInt (String c s) = NaN.
Proof.
  intros Hs Hd Hm Hp.
  destruct c as [[] [] [] [] [] [] [] []];
    try discriminate Hs; try discriminate Hd;
    try (exfalso; apply Hm; reflexivity);
    try (exfalso; apply Hp; reflexivity);
    reflexivity.
Qed.

(** C9, as the code has it.  The listener calls [toggleSelected] exactly
    when the click has a target carrying the class [line-numbers]; the line
    argument is [parseInt] of the target's text, whatever that text is, and
    the event is passed along.  No other click calls it. *)
Theorem C9_click_routing :
  forall (click : option MouseEvent) (n : number) (e : MouseEvent),
    handler click = Some (n, e) <->
    exists t : Element,
      click = Some e /\ target e = Some t /\
      In "line-numbers" (classList t) /\ n = parseInt (textContent t).
Proof.
  intros click n e. unfold handler. split.
  - destruct click as [ev |]; [| discriminate].
    destruct (target ev) as [t |] eqn:Ht; [| discriminate].
    destruct (contains (classList t) "line-numbers") eqn:Hc; [| discriminate].
    intros E. injection E as <- <-.
    exists t. repeat split; [exact Ht | apply contains_In; exact Hc].
  - intros [t [-> [Ht [Hc ->]]]]. rewrite Ht.
    apply contains_In in Hc. rewrite Hc. reflexivity.
Qed.

Lemma C9_click_routing_witness :
  handler (Some (gutter_click "12" true)) = Some (Int 12, gutter_click "12" true).
Proof.
  apply (proj2 (C9_click_routing (Some (gutter_click "12" true)) (Int 12)
                  (gutter_click "12" true))).
  exists {| classList := ["line-numbers"]; textContent := "12" |}.
  repeat split. left. reflexivity.
Defined.

(** C9, as the claim states it, fails: a click on a gutter cell whose text
    is not a number, or is empty, calls [toggleSelected] with [NaN], which
    is then stored and written to the fragment. *)
Lemma C9_toggle_called_with_NaN :
  handler (Some (gutter_click "abc" false)) =
    Some (NaN, gutter_click "abc" false)
  /\ handler (Some (gutter_click "" false)) = Some (NaN, gutter_click "" false)
  /\ on_click (mount "") (Some (gutter_click "abc" false)) =
       {| selected := (NaN, NaN); location_hash := "#LNaN-NaN" |}.
Proof. repeat split. Qed.

Example click_elsewhere (v : view) (shift : bool) :
  on_click v (Some {| target := Some {| classList := ["view-line"];
                                        textContent := "12" |};
                      shiftKey := shift |}) = v.
Proof. reflexivity. Qed.

Example reachable_4_2 : reachable (Int 4, Int 2).
Proof.
  exact (reach_toggle _ 2 (with_shift true) (reach_init "#L4") eq_refl).
Qed.

Example reachable_2_4 : reachable (Int 2, Int 4).
Proof.
  exact (reach_toggle _ 4 (with_shift true) (reach_init "#L2") eq_refl).
Qed.

Example collapse_7 :
  toggle (mount "#L7") (Int 7) (with_shift false) =
  {| selected := (Int (-1), Int (-1)); location_hash := "" |}.
Proof. reflexivity. Qed.

End ClickRouting.

(** ** Further properties of the selection store *)

Section ReadBack.

Lemma reject_non_digit (c : ascii) (s : string) :
  is_digit c = false ->
  RegExp.test hash_re (String "#" (String "L" (String c s))) = false.
Proof.
  intros Hc. destruct (RegExp.test hash_re _) eqn:T; [| reflexivity].
  apply test_matches, hash_re_shape in T.
  destruct T as [ds [[Hne Hds] H]].
  destruct ds as [| c' ds]; [contradiction |].
  cbn [all_digits] in Hds. apply andb_true_iff in Hds. destruct Hds as [Hc' _].
  assert (c = c').
  { destruct H as [E | [de [_ E]]]; cbn [append] in E; injection E; auto. }
  subst c'. rewrite Hc in Hc'. discriminate.
Qed.

Lemma ToString_negative (z : Z) :
  z < 0 -> ToString (Int z) = String "-" (number_digits (- z)).
Proof.
  intros H. unfold ToString.
  destruct (z <? 0) eqn:E; [reflexivity | apply Z.ltb_ge in E; lia].
Qed.

Lemma initial_selected_reject_minus (s : string) :
  initial_selected (String "#" (String "L" (String "-" s))) = (Int (-1), Int (-1)).
Proof. apply initial_selected_no_match, reject_non_digit. reflexivity. Qed.

Lemma occurs_append (c : ascii) (a b : string) :
  occurs c (a ++ b) = occurs c a || occurs c b.
Proof.
  induction a as [| x a IH]; cbn [append occurs]; [reflexivity |].
  rewrite IH. apply orb_assoc.
Qed.

Lemma occurs_digits (c : ascii) (s : string) :
  all_digits s = true -> occurs c s = true -> is_digit c = true.
Proof.
  induction s as [| x s IH]; cbn [all_digits occurs]; intros H O;
    [discriminate O |].
  apply andb_true_iff in H. destruct H as [Hx Hs].
  apply orb_true_iff in O. destruct O as [O | O]; [| apply IH; assumption].
  apply Ascii.eqb_eq in O. subst x. exact Hx.
Qed.

Lemma digits_without (c : ascii) (s : string) :
  is_digit c = false -> all_digits s = true -> occurs c s = false.
Proof.
  intros Hc Hs. destruct (occurs c s) eqn:O; [| reflexivity].
  rewrite (occurs_digits c s Hs O) in Hc. discriminate Hc.
Qed.

(** A fragment holding a character that is neither a digit nor a dash is
    rejected. *)
Lemma reject_occurs (c : ascii) (t : string) :
  is_digit c = false -> c <> "-"%char -> occurs c t = true ->
  initial_selected ("#L" ++ t) = (Int (-1), Int (-1)).
Proof.
  intros Hc Hd O. apply initial_selected_no_match.
  destruct (RegExp.test hash_re ("#L" ++ t)) eqn:T; [| reflexivity].
  apply test_matches, hash_re_shape in T.
  destruct T as [ds [[_ Hds] [E | [de [[_ Hde] E]]]]];
    cbn [append] in E; injection E as ->.
  - rewrite (digits_without c ds Hc Hds) in O. discriminate O.
  - rewrite occurs_append in O. cbn [append occurs] in O.
    rewrite (digits_without c ds Hc Hds), (digits_without c de Hc Hde) in O.
    destruct (Ascii.eqb_spec c "-"); [contradiction | discriminate O].
Qed.

Lemma horner_strip_empty (s : string) : strip_zeros s = "" -> horner 0 s = 0.
Proof.
  induction s as [| c s IH]; [reflexivity |].
  cbn [strip_zeros horner].
  destruct (strip_zeros s); [| discriminate].
  destruct (Ascii.eqb_spec c "0") as [-> |]; [| discriminate].
  intros _. apply IH. reflexivity.
Qed.

Lemma strip_nonempty (p : Z) : 0 < p -> strip_zeros (decimal p) <> "".
Proof.
  intros Hp E. apply horner_strip_empty in E.
  rewrite horner_decimal in E by lia. lia.
Qed.

Lemma all_digits_strip (s : string) :
  all_digits s = true -> all_digits (strip_zeros s) = true.
Proof.
  induction s as [| c s IH]; [reflexivity |].
  cbn [all_digits strip_zeros]. intros H.
  apply andb_true_iff in H. destruct H as [Hc Hs]. specialize (IH Hs).
  destruct (strip_zeros s) as [| c' t].
  - destruct (Ascii.eqb c "0"); [reflexivity |].
    cbn [all_digits]. rewrite Hc. reflexivity.
  - change (is_digit c && all_digits (String c' t) = true).
    rewrite Hc. exact IH.
Qed.

Lemma strip_zeros_app (s : string) :
  exists k : nat, s = (strip_zeros s ++ string_of_list_ascii (repeat "0"%char k))%string.
Proof.
  induction s as [| c s [k IH]]; [exists 0%nat; reflexivity |].
  cbn [strip_zeros]. destruct (strip_zeros s) as [| c' t].
  - destruct (Ascii.eqb_spec c "0") as [-> |].
    + exists (S k). cbn [append] in *. rewrite IH at 1. reflexivity.
    + exists k. cbn [append] in *. rewrite IH at 1. reflexivity.
  - exists k. cbn [append] in *. rewrite IH at 1. reflexivity.
Qed.

Lemma length_append (a b : string) :
  String.length (a ++ b) = (String.length a + String.length b)%nat.
Proof.
  induction a as [| c a IH]; cbn [append String.length]; [| rewrite IH];
    reflexivity.
Qed.

Lemma length_zeros (k : nat) : String.length (string_of_list_ascii (repeat "0"%char k)) = k.
Proof. induction k as [| k IH]; cbn; [| rewrite IH]; reflexivity. Qed.

Lemma split_at (c : ascii) (u : string) :
  forall u2 v v2 : string,
    occurs c u = false -> occurs c u2 = false ->
    (u ++ String c v)%string = (u2 ++ String c v2)%string ->
    u = u2 /\ v = v2.
Proof.
  induction u as [| x u IH]; intros u2 v v2 Hu Hu2 E;
    destruct u2 as [| x2 u2]; cbn [append occurs] in *.
  - injection E as ->. auto.
  - injection E as -> _. rewrite Ascii.eqb_refl in Hu2. discriminate Hu2.
  - injection E as -> _. rewrite Ascii.eqb_refl in Hu. discriminate Hu.
  - injection E as -> E.
    apply orb_false_iff in Hu. apply orb_false_iff in Hu2.
    destruct (IH u2 v v2 (proj2 Hu) (proj2 Hu2) E) as [-> ->]. auto.
Qed.

Lemma decimal_inj (n m : Z) : 0 <= n -> 0 <= m -> decimal n = decimal m -> n = m.
Proof.
  intros Hn Hm E. apply (f_equal (horner 0)) in E.
  rewrite !horner_decimal in E by assumption. exact E.
Qed.

Lemma occurs_e_exponent (p : Z) : 0 < p -> occurs "e" (exponent_form p) = true.
Proof.
  intros Hp. unfold exponent_form.
  pose proof (strip_nonempty p Hp) as Hne.
  destruct (strip_zeros (decimal p)) as [| c [| c' m]]; [contradiction | |].
  - cbn [append occurs]. rewrite Ascii.eqb_refl. apply orb_true_r.
  - cbn [append occurs]. rewrite occurs_append. cbn [occurs].
    rewrite Ascii.eqb_refl. rewrite !orb_true_r. reflexivity.
Qed.

Lemma no_dash_exponent (p : Z) :
  0 <= p -> occurs "-" (exponent_form p) = false.
Proof.
  intros Hp. unfold exponent_form.
  pose proof (all_digits_strip _ (all_digits_decimal p Hp)) as Hs.
  assert (Hx : forall n, 0 <= n -> occurs "-" (decimal n) = false).
  { intros n Hn. apply digits_without; [reflexivity |].
    apply all_digits_decimal. exact Hn. }
  assert (Hl : 0 <= Z.of_nat (String.length (decimal p)) - 1).
  { pose proof (decimal_nonempty p). destruct (decimal p); [contradiction |].
    cbn [String.length]. lia. }
  destruct (strip_zeros (decimal p)) as [| c [| c' m]].
  - apply Hx. exact Hp.
  - cbn [append occurs]. rewrite (Hx _ Hl).
    cbn [all_digits] in Hs. apply andb_true_iff in Hs.
    destruct (Ascii.eqb_spec "-" c) as [<- |]; [destruct Hs; discriminate |].
    reflexivity.
  - change (occurs "-" (String c ("." ++ String c' m ++ "e+" ++
              decimal (Z.of_nat (String.length (decimal p)) - 1))) = false).
    assert (Hc : occurs "-" (String c "") = false).
    { apply digits_without; [reflexivity |].
      cbn [all_digits] in *. apply andb_true_iff in Hs.
      rewrite (proj1 Hs). reflexivity. }
    assert (Hm : occurs "-" (String c' m) = false).
    { apply digits_without; [reflexivity |].
      change (is_digit c && all_digits (String c' m) = true) in Hs.
      apply andb_true_iff in Hs. exact (proj2 Hs). }
    change (String c ("." ++ String c' m ++ "e+" ++
              decimal (Z.of_nat (String.length (decimal p)) - 1)))
      with (String c "" ++ "." ++ String c' m ++ "e+" ++
              decimal (Z.of_nat (String.length (decimal p)) - 1))%string.
    rewrite !occurs_append, Hc, Hm, (Hx _ Hl). reflexivity.
Qed.

(** The exponent form tells the integer it was made from. *)
Lemma exponent_form_inj (p p' : Z) :
  0 < p -> 0 < p' -> exponent_form p = exponent_form p' -> p = p'.
Proof.
  intros Hp Hp' E.
  assert (Hlen : forall n, 0 < n ->
            0 <= Z.of_nat (String.length (decimal n)) - 1).
  { intros n _. pose proof (decimal_nonempty n).
    destruct (decimal n); [contradiction |]. cbn [String.length]. lia. }
  assert (K : strip_zeros (decimal p) = strip_zeros (decimal p') /\
              String.length (decimal p) = String.length (decimal p')).
  { unfold exponent_form in E.
    pose proof (strip_nonempty p Hp) as Hne.
    pose proof (strip_nonempty p' Hp') as Hne'.
    pose proof (all_digits_strip _ (all_digits_decimal p (Z.lt_le_incl _ _ Hp))) as Hs.
    pose proof (all_digits_strip _ (all_digits_decimal p' (Z.lt_le_incl _ _ Hp'))) as Hs'.
    assert (X : forall x x' : string,
              x = decimal (Z.of_nat (String.length (decimal p)) - 1) ->
              x' = decimal (Z.of_nat (String.length (decimal p')) - 1) ->
              x = x' ->
              String.length (decimal p) = String.length (decimal p')).
    { intros x x' -> -> Ex. apply decimal_inj in Ex; [lia | |]; apply Hlen;
        assumption. }
    destruct (strip_zeros (decimal p)) as [| c [| c1 m]]; [contradiction | |];
      destruct (strip_zeros (decimal p')) as [| c' [| c1' m']];
      try contradiction; cbn [append] in E.
    - injection E as -> E. split; [reflexivity |].
      eapply X; [reflexivity | reflexivity | exact E].
    - injection E as _ E. discriminate E.
    - injection E as _ E. discriminate E.
    - injection E as -> -> E.
      assert (Hm : all_digits m = true).
      { change (is_digit c' && (is_digit c1' && all_digits m) = true) in Hs.
        apply andb_true_iff in Hs. destruct Hs as [_ Hs].
        apply andb_true_iff in Hs. exact (proj2 Hs). }
      assert (Hm' : all_digits m' = true).
      { change (is_digit c' && (is_digit c1' && all_digits m') = true) in Hs'.
        apply andb_true_iff in Hs'. destruct Hs' as [_ Hs'].
        apply andb_true_iff in Hs'. exact (proj2 Hs'). }
      apply split_at in E;
        [| apply digits_without; [reflexivity | exact Hm]
         | apply digits_without; [reflexivity | exact Hm'] ].
      destruct E as [-> Ex]. injection Ex as Ex.
      split; [reflexivity |].
      eapply X; [reflexivity | reflexivity | exact Ex]. }
  destruct K as [Ks Kl].
  apply decimal_inj; try lia.
  destruct (strip_zeros_app (decimal p)) as [k Ek].
  destruct (strip_zeros_app (decimal p')) as [k' Ek'].
  assert (k = k').
  { apply (f_equal String.length) in Ek. apply (f_equal String.length) in Ek'.
    rewrite length_append, length_zeros in Ek, Ek'. rewrite Ks in Ek. lia. }
  subst k'. rewrite Ek, Ek', Ks. reflexivity.
Qed.

(** From [10^21] on a double is written in exponent form. *)
Lemma shortest_big (z : Z) :
  round_double z = Int z -> 10 ^ 21 <= z -> 10 ^ 21 <= shortest z.
Proof.
  intros Hd Hz.
  destruct (Z.eq_dec z (10 ^ 21)) as [-> | Hne]; [vm_compute; discriminate |].
  destruct (shortest_cases z ltac:(lia)) as [-> | [Hp H]]; [exact Hz |].
  destruct (Z.lt_ge_cases (shortest z) (10 ^ 21)) as [L | G]; [| exact G].
  pose proof (round_double_lt_1e21 _ _ (conj Hp L) H). lia.
Qed.

Lemma number_digits_big (z : Z) :
  round_double z = Int z -> 10 ^ 21 <= z ->
  number_digits z = exponent_form (shortest z).
Proof.
  intros Hd Hz. unfold number_digits.
  pose proof (shortest_big z Hd Hz).
  destruct (shortest z <? 10 ^ 21) eqn:E; [apply Z.ltb_lt in E; lia |].
  reflexivity.
Qed.

Lemma occurs_e_big (z : Z) :
  round_double z = Int z -> 10 ^ 21 <= z -> occurs "e" (ToString (Int z)) = true.
Proof.
  intros Hd Hz. rewrite ToString_nonneg by lia.
  rewrite number_digits_big by assumption.
  apply occurs_e_exponent. pose proof (shortest_big z Hd Hz). lia.
Qed.

Lemma negative_pair_rejected (a b : Z) :
  a < 0 \/ b < 0 ->
  initial_selected (hash_of (Int a, Int b)) = (Int (-1), Int (-1)).
Proof.
  intros H. rewrite hash_of_Int.
  destruct (a =? -1) eqn:E1; [reflexivity |]. apply Z.eqb_neq in E1.
  destruct (a =? b) eqn:E2.
  - apply Z.eqb_eq in E2. subst b.
    rewrite (ToString_negative a) by lia. apply initial_selected_reject_minus.
  - rewrite (ToString_negative (Z.min a b)) by lia.
    apply initial_selected_reject_minus.
Qed.

Lemma big_pair_rejected (a b : Z) :
  round_double a = Int a -> round_double b = Int b ->
  0 <= a -> 0 <= b -> 10 ^ 21 <= a \/ 10 ^ 21 <= b ->
  initial_selected (hash_of (Int a, Int b)) = (Int (-1), Int (-1)).
Proof.
  intros Da Db Ha Hb H. rewrite hash_of_Int.
  destruct (a =? -1) eqn:E1; [reflexivity |].
  destruct (a =? b) eqn:E2.
  - apply Z.eqb_eq in E2. subst b.
    apply (reject_occurs "e"); [reflexivity | discriminate |].
    apply occurs_e_big; [exact Da | lia].
  - apply (reject_occurs "e"); [reflexivity | discriminate |].
    rewrite !occurs_append.
    replace (occurs "e" (ToString (Int (Z.max a b)))) with true;
      [rewrite !orb_true_r; reflexivity |].
    symmetry. apply occurs_e_big; [| lia].
    destruct (Z.max_spec a b) as [[_ ->] | [_ ->]]; assumption.
Qed.

(** X1.  Reading back the fragment written for any selection of
    JavaScript numbers: a pair of integers that are both at least 0 and
    below [10^21] comes back in order; every other pair (the empty
    selection, a negative number, a number from [10^21] on, which is written
    in exponent form, an infinity, a [NaN]) comes back as the empty
    selection [(-1, -1)]. *)
Theorem X1_read_back_any_selection :
  forall s : selection,
    is_number (fst s) -> is_number (snd s) ->
    initial_selected (hash_of s) =
    match s with
    | (Int a, Int b) =>
        if (0 <=? a) && (0 <=? b) && (a <? 10 ^ 21) && (b <? 10 ^ 21)
        then (Int (Z.min a b), Int (Z.max a b))
        else (Int (-1), Int (-1))
    | _ => (Int (-1), Int (-1))
    end.
Proof.
  intros [[a | | |] [b | | |]] Da Db; cbn [fst snd is_number] in Da, Db.
  - destruct (0 <=? a) eqn:Ha; [apply Z.leb_le in Ha | apply Z.leb_gt in Ha];
      [| apply negative_pair_rejected; auto].
    destruct (0 <=? b) eqn:Hb; [apply Z.leb_le in Hb | apply Z.leb_gt in Hb];
      [| apply negative_pair_rejected; auto].
    cbn [andb].
    destruct (a <? 10 ^ 21) eqn:La; [apply Z.ltb_lt in La | apply Z.ltb_ge in La];
      [| apply big_pair_rejected; auto].
    destruct (b <? 10 ^ 21) eqn:Lb; [apply Z.ltb_lt in Lb | apply Z.ltb_ge in Lb];
      [| apply big_pair_rejected; auto].
    apply round_trip; split; auto.
  - unfold hash_of, strict_neq. rewrite strict_eq_Int.
    destruct (a =? -1); reflexivity.
  - unfold hash_of, strict_neq. rewrite strict_eq_Int.
    destruct (a =? -1); [reflexivity |].
    cbn [negb strict_eq Math_min Math_max].
    apply (reject_occurs "I"); [reflexivity | discriminate |].
    rewrite occurs_append. apply orb_true_r.
  - unfold hash_of, strict_neq. rewrite strict_eq_Int.
    destruct (a =? -1); [reflexivity |].
    cbn [negb strict_eq Math_min Math_max ToString append].
    apply initial_selected_reject_minus.
  - reflexivity.
  - reflexivity.
  - reflexivity.
  - reflexivity.
  - unfold hash_of, strict_neq.
    cbn [negb strict_eq Math_min Math_max].
    apply (reject_occurs "I"); [reflexivity | discriminate |].
    rewrite occurs_append. apply orb_true_r.
  - reflexivity.
  - reflexivity.
  - reflexivity.
  - unfold hash_of, strict_neq.
    cbn [negb strict_eq Math_min Math_max ToString append].
    apply initial_selected_reject_minus.
  - reflexivity.
  - reflexivity.
  - reflexivity.
Qed.

Lemma X1_read_back_any_selection_witness :
  is_number (Int (10 ^ 21)) /\ is_number (Int 5) /\
  initial_selected (hash_of (Int (10 ^ 21), Int 5)) = (Int (-1), Int (-1)).
Proof.
  assert (Ha : is_number (Int (10 ^ 21))) by (vm_compute; reflexivity).
  assert (Hb : is_number (Int 5)) by reflexivity.
  split; [exact Ha |]. split; [exact Hb |].
  exact (X1_read_back_any_selection (Int (10 ^ 21), Int 5) Ha Hb).
Defined.

Lemma nonneg_not_NaN (x : number) : nonneg x -> isNaN (Some x) = false.
Proof. destruct x; cbn; intros H; (reflexivity || contradiction). Qed.

(** X2.  The initializer never yields [NaN], and the first component of
    the initial selection is [-1] exactly when the pattern rejected the
    fragment: the sentinel is never parsed. *)
Theorem X2_sentinel_only_on_reject :
  forall hash : string,
    isNaN (Some (fst (initial_selected hash))) = false
    /\ isNaN (Some (snd (initial_selected hash))) = false
    /\ (fst (initial_selected hash) = Int (-1) <->
        RegExp.test hash_re hash = false).
Proof.
  intros hash.
  destruct (initial_selected_cases hash) as [[T E] | [T [H0 H1]]]; rewrite T.
  - rewrite E. repeat split; reflexivity.
  - split; [apply nonneg_not_NaN; exact H0 |].
    split; [apply nonneg_not_NaN; exact H1 |].
    split; [| discriminate].
    intros E. rewrite E in H0. cbn in H0. lia.
Qed.


(** X3.  The fragment does not depend on the direction in which a range was
    made: when neither component is [-1], the pairs [(a, b)] and [(b, a)]
    are written as the same fragment. *)
Theorem X3_fragment_ignores_direction :
  forall a b : Z, a <> -1 -> b <> -1 ->
    hash_of (Int a, Int b) = hash_of (Int b, Int a).
Proof.
  intros a b Ha Hb. rewrite !hash_of_Int.
  apply Z.eqb_neq in Ha. apply Z.eqb_neq in Hb. rewrite Ha, Hb.
  rewrite (Z.eqb_sym b a), (Z.min_comm b a), (Z.max_comm b a).
  destruct (a =? b) eqn:E; [| reflexivity].
  apply Z.eqb_eq in E. subst b. reflexivity.
Qed.

Lemma X3_fragment_ignores_direction_witness :
  4 <> -1 /\ 2 <> -1 /\ hash_of (Int 4, Int 2) = hash_of (Int 2, Int 4).
Proof.
  assert (Ha : 4 <> -1) by lia. assert (Hb : 2 <> -1) by lia.
  split; [exact Ha |]. split; [exact Hb |].
  exact (X3_fragment_ignores_direction 4 2 Ha Hb).
Defined.

(** The text of a number tells the number. *)
Lemma number_digits_inj (z z' : Z) :
  round_double z = Int z -> round_double z' = Int z' -> 0 <= z -> 0 <= z' ->
  number_digits z = number_digits z' -> z = z'.
Proof.
  intros Dz Dz' Hz Hz' E.
  pose proof (shortest_nonneg z Hz) as Hp.
  pose proof (shortest_nonneg z' Hz') as Hp'.
  assert (S : shortest z = shortest z').
  { unfold number_digits in E.
    destruct (shortest z <? 10 ^ 21) eqn:L;
      destruct (shortest z' <? 10 ^ 21) eqn:L';
      try apply Z.ltb_ge in L; try apply Z.ltb_ge in L'.
    - apply decimal_inj; assumption.
    - apply (f_equal (occurs "e")) in E.
      rewrite occurs_e_exponent in E by lia.
      rewrite digits_without in E;
        [discriminate E | reflexivity | apply all_digits_decimal; exact Hp].
    - apply (f_equal (occurs "e")) in E.
      rewrite occurs_e_exponent in E by lia.
      rewrite digits_without in E;
        [discriminate E | reflexivity | apply all_digits_decimal; exact Hp'].
    - apply exponent_form_inj; [lia | lia | exact E]. }
  pose proof (shortest_rounds z Hz Dz) as R.
  pose proof (shortest_rounds z' Hz' Dz') as R'.
  rewrite S, R' in R. injection R. auto.
Qed.

Lemma no_dash_number_digits (z : Z) :
  0 <= z -> occurs "-" (number_digits z) = false.
Proof.
  intros Hz. unfold number_digits. pose proof (shortest_nonneg z Hz) as Hp.
  destruct (shortest z <? 10 ^ 21).
  - apply digits_without; [reflexivity | apply all_digits_decimal; exact Hp].
  - apply no_dash_exponent. exact Hp.
Qed.

(** X4.  Fragments name ranges without ambiguity: two ordered pairs of
    JavaScript numbers that are integers at least 0 and are written as the
    same fragment are the same pair. *)
Theorem X4_fragment_injective :
  forall lo hi lo' hi' : Z,
    round_double lo = Int lo -> round_double hi = Int hi ->
    round_double lo' = Int lo' -> round_double hi' = Int hi' ->
    0 <= lo <= hi -> 0 <= lo' <= hi' ->
    hash_of (Int lo, Int hi) = hash_of (Int lo', Int hi') ->
    lo = lo' /\ hi = hi'.
Proof.
  intros lo hi lo' hi' Dlo Dhi Dlo' Dhi' H H' E.
  rewrite !hash_of_Int in E.
  replace (lo =? -1) with false in E by (symmetry; apply Z.eqb_neq; lia).
  replace (lo' =? -1) with false in E by (symmetry; apply Z.eqb_neq; lia).
  rewrite !Z.min_l, !Z.max_r in E by lia.
  rewrite !ToString_nonneg in E by lia.
  pose proof (no_dash_number_digits lo ltac:(lia)) as Nlo.
  pose proof (no_dash_number_digits lo' ltac:(lia)) as Nlo'.
  destruct (lo =? hi) eqn:E1; destruct (lo' =? hi') eqn:E2;
    try apply Z.eqb_eq in E1; try apply Z.eqb_eq in E2;
    cbn [append] in E; injection E as E.
  - apply number_digits_inj in E; try assumption; lia.
  - apply (f_equal (occurs "-")) in E.
    rewrite occurs_append in E. cbn [occurs] in E.
    rewrite Nlo, Nlo' in E. discriminate E.
  - apply (f_equal (occurs "-")) in E.
    rewrite occurs_append in E. cbn [occurs] in E.
    rewrite Nlo, Nlo' in E. discriminate E.
  - apply split_at in E; [| exact Nlo | exact Nlo'].
    destruct E as [Elo Ehi].
    apply number_digits_inj in Elo; try assumption; try lia.
    apply number_digits_inj in Ehi; try assumption; lia.
Qed.

Lemma X4_fragment_injective_witness :
  round_double 3 = Int 3 /\ round_double 9 = Int 9 /\ 0 <= 3 <= 9 /\
  hash_of (Int 3, Int 9) = "#L3-9" /\ 3 = 3 /\ 9 = 9.
Proof.
  assert (D3 : round_double 3 = Int 3) by reflexivity.
  assert (D9 : round_double 9 = Int 9) by reflexivity.
  assert (H : 0 <= 3 <= 9) by lia.
  split; [exact D3 |]. split; [exact D9 |]. split; [exact H |].
  split; [reflexivity |].
  exact (X4_fragment_injective 3 9 3 9 D3 D9 D3 D9 H H eq_refl).
Defined.

(** X5.  What mounting writes for an accepted fragment whose numbers are
    below [2^53]: the numbers are written without leading zeros, a range of
    one line as that line alone, and a range given backwards with its lower
    line first. *)
Theorem X5_mount_normalises :
  forall ds de : string, digit_run ds -> digit_run de ->
    horner 0 ds < 2 ^ 53 -> horner 0 de < 2 ^ 53 ->
    let n := horner 0 ds in
    let m := horner 0 de in
    location_hash (mount ("#L" ++ ds)) = ("#L" ++ decimal n)%string
    /\ location_hash (mount ("#L" ++ ds ++ "-" ++ de)) =
       (if (n =? m)%Z then "#L" ++ decimal n
        else "#L" ++ decimal (Z.min n m) ++ "-" ++ decimal (Z.max n m))%string.
Proof.
  intros ds de Hds Hde Bn Bm. cbv zeta. unfold mount. cbn [location_hash].
  pose proof (horner_nonneg ds 0 (Z.le_refl 0) (proj2 Hds)) as Hn.
  pose proof (horner_nonneg de 0 (Z.le_refl 0) (proj2 Hde)) as Hm.
  rewrite initial_selected_single by exact Hds.
  rewrite initial_selected_range by assumption.
  rewrite !Number_digits by (apply Hds || apply Hde).
  rewrite !round_double_small by lia.
  rewrite !hash_of_Int, Z.eqb_refl.
  destruct (horner 0 ds =? -1) eqn:E; [apply Z.eqb_eq in E; lia |].
  rewrite !ToString_small by lia. split; reflexivity.
Qed.

Lemma X5_mount_normalises_witness :
  digit_run "007" /\ digit_run "05" /\
  horner 0 "007" < 2 ^ 53 /\ horner 0 "05" < 2 ^ 53 /\
  location_hash (mount "#L007") = "#L7" /\
  location_hash (mount "#L007-05") = "#L5-7".
Proof.
  assert (H1 : digit_run "007") by (split; [discriminate | reflexivity]).
  assert (H2 : digit_run "05") by (split; [discriminate | reflexivity]).
  assert (B1 : horner 0 "007" < 2 ^ 53) by reflexivity.
  assert (B2 : horner 0 "05" < 2 ^ 53) by reflexivity.
  split; [exact H1 |]. split; [exact H2 |].
  split; [exact B1 |]. split; [exact B2 |].
  exact (X5_mount_normalises "007" "05" H1 H2 B1 B2).
Defined.

End ReadBack.

(** ** Sequences of clicks *)

Section Clicks.

Ltac by_eqb :=
  repeat match goal with
         | |- context [?x =? ?y] =>
             destruct (Z.eqb_spec x y); subst;
             cbn [strict_eq andb orb negb]
         end.

(** X6.  Clicks without shift on one and the same line alternate: the third
    click gives what the first gave.  For an integer line the second click
    either clears the selection or, when that line alone was selected to
    begin with, selects it again. *)
Theorem X6_plain_clicks_alternate :
  forall (s : selection) (lineNo : number) (e : MouseEvent),
    shiftKey e = false ->
    let t := fun s' => toggleSelected s' lineNo e in
    t (t (t s)) = t s
    /\ (forall n : Z, lineNo = Int n ->
          t (t s) = (Int (-1), Int (-1)) \/ t (t s) = s).
Proof.
  intros [[a | | |] [b | | |]] [n | | |] e He; cbv zeta; unfold toggleSelected;
    rewrite He; cbn [strict_eq andb orb negb];
    (split; [| intros n' E; try discriminate E]);
    by_eqb; auto; try congruence; try lia.
Qed.

Lemma X6_plain_clicks_alternate_witness :
  shiftKey (with_shift false) = false /\
  toggleSelected
    (toggleSelected
       (toggleSelected (Int 4, Int 2) (Int 4) (with_shift false))
       (Int 4) (with_shift false))
    (Int 4) (with_shift false) = (Int 4, Int 4).
Proof.
  split; [reflexivity |].
  exact (eq_trans
           (proj1 (X6_plain_clicks_alternate (Int 4, Int 2) (Int 4)
                     (with_shift false) eq_refl))
           eq_refl).
Defined.

Lemma last_any_default (A : Type) (l : list A) :
  forall x d d' : A, last (x :: l) d = last (x :: l) d'.
Proof.
  induction l as [| y l IH]; intros x d d'; [reflexivity |].
  change (last (y :: l) d = last (y :: l) d'). apply IH.
Qed.

Lemma last_cons_default (A : Type) (l : list A) (x d : A) :
  last (x :: l) d = last l x.
Proof.
  destruct l as [| y l]; [reflexivity |].
  change (last (y :: l) d = last (y :: l) x). apply last_any_default.
Qed.

(** X7.  Shift-clicks keep the anchor: from a selection with anchor [a]
    other than [-1], any sequence of shift-clicks on lines other than [a]
    leaves the anchor [a] in place and the last line clicked as the other
    end; no such click clears the selection. *)
Theorem X7_shift_clicks_keep_anchor :
  forall (ls : list Z) (a b : Z),
    a <> -1 -> Forall (fun l => l <> a) ls ->
    shift_clicks (Int a, Int b) ls = (Int a, Int (last ls b)).
Proof.
  induction ls as [| l ls IH]; intros a b Ha Hls; [reflexivity |].
  inversion Hls as [| ? ? Hl Hls']; subst.
  unfold shift_clicks. cbn [fold_left].
  replace (toggleSelected (Int a, Int b) (Int l) (with_shift true))
    with (Int a, Int l).
  - fold (shift_clicks (Int a, Int l) ls).
    rewrite IH by assumption. rewrite last_cons_default. reflexivity.
  - unfold toggleSelected. rewrite !strict_eq_Int. cbn [shiftKey with_shift].
    apply Z.eqb_neq in Ha. rewrite Ha.
    replace (a =? l) with false by (symmetry; apply Z.eqb_neq; lia).
    reflexivity.
Qed.

Lemma X7_shift_clicks_keep_anchor_witness :
  4 <> -1 /\ Forall (fun l => l <> 4) [2; 9; 1] /\
  shift_clicks (Int 4, Int 4) [2; 9; 1] = (Int 4, Int 1).
Proof.
  assert (Ha : 4 <> -1) by lia.
  assert (Hls : Forall (fun l => l <> 4) [2; 9; 1])
    by (repeat constructor; lia).
  split; [exact Ha |]. split; [exact Hls |].
  exact (X7_shift_clicks_keep_anchor [2; 9; 1] 4 4 Ha Hls).
Defined.

(** [parseInt] and [Number] read a run of digits alike. *)
Lemma digit_plain (c : ascii) :
  is_digit c = true ->
  is_space c = false /\ c <> "-"%char /\ c <> "+"%char.
Proof.
  destruct c as [[] [] [] [] [] [] [] []]; intros H; try discriminate H;
    (split; [reflexivity | split; discriminate]).
Qed.

Lemma parseInt_unsigned (c : ascii) (s : string) :
  is_space c = false -> c <> "-"%char -> c <> "+"%char ->
  parseInt (String c s) =
  match scan_unsigned (String c s) with
  | Some v => round_double (1 * v)
  | None => NaN
  end.
Proof.
  intros Hs Hm Hp.
  destruct c as [[] [] [] [] [] [] [] []];
    try discriminate Hs;
    try (exfalso; apply Hm; reflexivity);
    try (exfalso; apply Hp; reflexivity);
    reflexivity.
Qed.

Lemma scan_unsigned_digits (s : string) :
  all_digits s = true -> scan_unsigned s = scan_dec None s.
Proof.
  intros H. destruct s as [| c s]; [reflexivity |].
  destruct c as [[] [] [] [] [] [] [] []]; try reflexivity.
  destruct s as [| c2 s]; [reflexivity |].
  destruct c2 as [[] [] [] [] [] [] [] []]; try reflexivity;
    cbn in H; discriminate H.
Qed.

Lemma scan_dec_digits (s : string) :
  forall acc : option Z,
    s <> "" -> all_digits s = true ->
    scan_dec acc s =
    Some (horner match acc with Some a => a | None => 0 end s).
Proof.
  induction s as [| c s IH]; intros acc Hne H; [contradiction |].
  cbn [all_digits] in H. apply andb_true_iff in H. destruct H as [Hc Hs].
  cbn [scan_dec horner]. rewrite Hc.
  destruct s as [| c' s'].
  - reflexivity.
  - rewrite IH by (discriminate || exact Hs). reflexivity.
Qed.

Lemma parseInt_digits (s : string) :
  digit_run s -> parseInt s = round_double (horner 0 s).
Proof.
  intros [Hne H]. destruct s as [| c s]; [contradiction |].
  pose proof H as H'. cbn [all_digits] in H'.
  apply andb_true_iff in H'. destruct H' as [Hc _].
  destruct (digit_plain c Hc) as [Hs [Hm Hp]].
  rewrite parseInt_unsigned by assumption.
  rewrite scan_unsigned_digits by exact H.
  rewrite scan_dec_digits by (discriminate || exact H).
  f_equal. lia.
Qed.

Lemma handler_gutter_click (text : string) (shift : bool) :
  handler (Some (gutter_click text shift)) =
  Some (parseInt text, gutter_click text shift).
Proof. reflexivity. Qed.

(** X8.  A click and a link agree: on a page opened without an accepted
    fragment, clicking the gutter cell that shows the digits [ds], with or
    without shift, leaves the hook in the state that opening the page on
    [#L<ds>] gives: same selection, same fragment. *)
Theorem X8_click_agrees_with_link :
  forall (hash ds : string) (shift : bool),
    RegExp.test hash_re hash = false -> digit_run ds ->
    on_click (mount hash) (Some (gutter_click ds shift)) = mount ("#L" ++ ds).
Proof.
  intros hash ds shift T Hds.
  unfold on_click. rewrite handler_gutter_click.
  unfold toggle, mount. cbn [selected location_hash].
  rewrite (initial_selected_no_match hash T).
  rewrite initial_selected_single by exact Hds.
  rewrite parseInt_digits by exact Hds.
  rewrite Number_digits by apply Hds.
  pose proof (round_double_nonneg (horner 0 ds)
                (horner_nonneg ds 0 (Z.le_refl 0) (proj2 Hds))) as Hn.
  unfold toggleSelected.
  destruct (round_double (horner 0 ds)) as [d | | |]; cbn [nonneg] in Hn;
    try contradiction; cbn [strict_eq andb orb]; [| reflexivity].
  replace (-1 =? d) with false by (symmetry; apply Z.eqb_neq; lia).
  reflexivity.
Qed.

Lemma X8_click_agrees_with_link_witness :
  RegExp.test hash_re "#Lxyz" = false /\ digit_run "012" /\
  on_click (mount "#Lxyz") (Some (gutter_click "012" true)) =
    {| selected := (Int 12, Int 12); location_hash := "#L12" |}.
Proof.
  assert (T : RegExp.test hash_re "#Lxyz" = false) by reflexivity.
  assert (H : digit_run "012") by (split; [discriminate | reflexivity]).
  split; [exact T |]. split; [exact H |].
  exact (eq_trans (X8_click_agrees_with_link "#Lxyz" "012" true T H) eq_refl).
Defined.

End Clicks.

(** ** The page and its link *)

Section Link.







End Link.

(** ** The highlight and the fragment *)

Section HighlightAndFragment.

(** X10.  The highlight and the fragment are empty together: the effect
    asks nothing of the editor exactly when the editor or [monaco] is not
    set yet or the fragment written for the selection is empty.  Both look
    at the first component of the selection only. *)
Theorem X10_highlight_iff_fragment :
  forall (editor monaco : bool) (s : selection) (decorations : list string),
    calls (highlight_effect editor monaco s decorations) = [] <->
    editor = false \/ monaco = false \/ hash_of s = "".
Proof.
  intros editor monaco [s0 s1] ids. unfold highlight_effect, hash_of, strict_neq.
  destruct editor, monaco; cbn [negb orb]; try (split; [auto | reflexivity]).
  destruct (strict_eq s0 (Int (-1))); cbn [negb calls].
  - split; [auto | reflexivity].
  - split; [discriminate |].
    intros [H | [H | H]]; try discriminate H.
    destruct (negb (strict_eq s1 s0)); cbn [append] in H; discriminate H.
Qed.

(** X11.  The highlight and the link name the same lines: for a selection
    of two plain numbers, the start line and the end line of the range
    handed to the editor are the pair read back from the fragment written
    for that selection. *)
Theorem X11_highlight_matches_link :
  forall (a b : Z) (decorations : list string), plain a -> plain b ->
    exists rg : Range,
      requested_range (highlight_effect true true (Int a, Int b) decorations)
        = Some rg
      /\ initial_selected (hash_of (Int a, Int b)) =
         (startLineNumber rg, endLineNumber rg).
Proof.
  intros a b ids Ha Hb.
  pose proof (plain_nonneg a Ha).
  unfold requested_range, highlight_effect. rewrite strict_eq_Int.
  replace (a =? -1) with false by (symmetry; apply Z.eqb_neq; lia).
  cbn [negb orb calls range]. eexists. split; [reflexivity |].
  rewrite new_Range_lines. cbn [startLineNumber endLineNumber].
  apply round_trip; assumption.
Qed.

Lemma X11_highlight_matches_link_witness :
  plain 4 /\ plain 2 /\
  exists rg : Range,
    requested_range (highlight_effect true true (Int 4, Int 2) []) = Some rg
    /\ initial_selected (hash_of (Int 4, Int 2)) =
       (startLineNumber rg, endLineNumber rg).
Proof.
  assert (Ha : plain 4) by (split; [reflexivity | split; [discriminate | reflexivity]]).
  assert (Hb : plain 2) by (split; [reflexivity | split; [discriminate | reflexivity]]).
  split; [exact Ha |]. split; [exact Hb |].
  exact (X11_highlight_matches_link 4 2 [] Ha Hb).
Defined.

End HighlightAndFragment.

(** ** Decorations over the life of the component *)

Section RendersFacts.

Context {ed call Deps D : Type}.
Variable exec_call : ed -> call -> ed * list string.
Variable effect : Deps -> list string -> list call * list call.
Variable shown : ed -> list D.
Variable adds : Deps -> list D.

(** A run adds what [adds] says, and its cleanup takes it away again. *)
Hypothesis run_ok :
  forall (e : ed) (d : Deps),
    shown (fst (run_effect exec_call effect e d)) = (shown e ++ adds d)%list
    /\ shown (exec exec_call (fst (run_effect exec_call effect e d))
                (snd (run_effect exec_call effect e d))) = shown e.

Lemma renders_ok (ds : list Deps) :
  forall (e : ed) (pending : list call) (base cur : list D),
    shown (exec exec_call e pending) = base ->
    shown e = (base ++ cur)%list ->
    shown (fst (renders exec_call effect e pending ds)) =
      (base ++ last (map adds ds) cur)%list
    /\ shown (unmount exec_call (renders exec_call effect e pending ds)) = base.
Proof.
  induction ds as [| d ds IH]; intros e pending base cur Hp He.
  - cbn [renders map last fst]. split; [exact He | exact Hp].
  - cbn [renders map].
    destruct (run_ok (exec exec_call e pending) d) as [H1 H2].
    destruct (run_effect exec_call effect (exec exec_call e pending) d)
      as [e' pending'].
    cbn [fst snd] in H1, H2. rewrite Hp in H1, H2.
    rewrite last_cons_default. apply IH; assumption.
Qed.

End RendersFacts.

Section StackStore.

Context {D : Type}.

Lemma stack_delta_add (e new : list D) :
  fst (stack_delta e [] new) = (e ++ new)%list.
Proof.
  unfold stack_delta. cbn [fst length]. rewrite Nat.sub_0_r, firstn_all.
  reflexivity.
Qed.

Lemma stack_delta_undo (e new : list D) :
  fst (stack_delta (fst (stack_delta e [] new))
         (snd (stack_delta e [] new)) []) = e.
Proof.
  rewrite stack_delta_add. unfold stack_delta. cbn [fst snd].
  rewrite length_map, length_app, Nat.add_sub, app_nil_r.
  rewrite firstn_app, Nat.sub_diag, firstn_all. cbn [firstn].
  apply app_nil_r.
Qed.

End StackStore.

Section DecorationLife.

Context {ed : Type}.
Variable delta : ed -> list string -> list decoration -> ed * list string.
Variable shown : ed -> list decoration.

(** [deltaDecorations] as the program relies on it: decorations added with
    no old id are shown after those already there, and handing back the ids
    an addition returned shows what was there before. *)
Hypothesis delta_add :
  forall e new, shown (fst (delta e [] new)) = (shown e ++ new)%list.
Hypothesis delta_undo :
  forall e new,
    shown (fst (delta (fst (delta e [] new)) (snd (delta e [] new)) []))
    = shown e.

Lemma highlight_run_ok (e : ed) (d : highlight_deps) :
  shown (fst (run_effect (highlight_exec delta) highlight_run e d)) =
    (shown e ++ highlight_added d)%list
  /\ shown (exec (highlight_exec delta)
              (fst (run_effect (highlight_exec delta) highlight_run e d))
              (snd (run_effect (highlight_exec delta) highlight_run e d)))
     = shown e.
Proof.
  destruct d as [[editor monaco] [s0 s1]].
  unfold run_effect, highlight_added, highlight_run, highlight_effect.
  destruct (negb editor || negb monaco || strict_eq s0 (Int (-1))).
  - cbn. rewrite app_nil_r. split; reflexivity.
  - destruct (strict_eq s0 s1);
      cbn [fst snd calls cleanup exec fold_left highlight_exec answer];
      (split; [apply delta_add | apply delta_undo]).
Qed.

Lemma highlight_added_length (d : highlight_deps) :
  (length (highlight_added d) <= 1)%nat.
Proof.
  destruct d as [[editor monaco] [s0 s1]].
  unfold highlight_added, highlight_run, highlight_effect.
  destruct (negb editor || negb monaco || strict_eq s0 (Int (-1)));
    cbn; auto.
Qed.

(** X12.  At most one highlight, and none left behind.  Over any sequence
    of runs of the highlight effect (a change of selection, of content, of
    editor), each preceded by the cleanup of the run before, the editor
    shows what it showed before the first run plus the decoration of the
    last run alone, which is one decoration or none; after the cleanup at
    unmount it shows what it showed before the first run. *)
Theorem X12_one_highlight_at_most :
  forall (rs : list highlight_deps) (e0 : ed),
    let st := renders (highlight_exec delta) highlight_run e0 [] rs in
    let current := last (map highlight_added rs) [] in
    shown (fst st) = (shown e0 ++ current)%list
    /\ (length current <= 1)%nat
    /\ shown (unmount (highlight_exec delta) st) = shown e0.
Proof.
  intros rs e0. cbv zeta.
  destruct (renders_ok (highlight_exec delta) highlight_run shown
              highlight_added highlight_run_ok rs e0 [] (shown e0) [])
    as [H1 H2]; [reflexivity | symmetry; apply app_nil_r |].
  split; [exact H1 |]. split; [| exact H2].
  clear H1 H2. induction rs as [| r rs IH]; [cbn; auto |].
  cbn [map]. rewrite last_cons_default.
  destruct rs as [| r' rs]; [apply highlight_added_length |].
  cbn [map] in *. rewrite last_cons_default in IH.
  rewrite last_cons_default. exact IH.
Qed.

End DecorationLife.

Lemma X12_one_highlight_at_most_witness :
  let rs := [ (true, true, (Int 4, Int 4)); (true, true, (Int 4, Int 2));
              (true, true, (Int 4, Int 2)) ] in
  let st := renders (highlight_exec stack_delta) highlight_run [] [] rs in
  fst st =
    [ {| range := {| startLineNumber := Int 2; startColumn := Int 1;
                     endLineNumber := Int 4; endColumn := Int 1 |};
         options := {| isWholeLine := true;
                       linesDecorationsClassName := "highlighted-line" |} |} ]
  /\ unmount (highlight_exec stack_delta) st = [].
Proof.
  cbv zeta.
  destruct (X12_one_highlight_at_most stack_delta (fun e => e)
              stack_delta_add stack_delta_undo
              [ (true, true, (Int 4, Int 4)); (true, true, (Int 4, Int 2));
                (true, true, (Int 4, Int 2)) ] [])
    as [H1 [_ H2]].
  split; [exact H1 | exact H2].
Defined.

Section PlaceholderLife.

Context {ed : Type}.
Variable delta :
  ed -> list string -> list Placeholder.decoration -> ed * list string.
Variable shown : ed -> list Placeholder.decoration.

Hypothesis delta_add :
  forall e new, shown (fst (delta e [] new)) = (shown e ++ new)%list.
Hypothesis delta_undo :
  forall e new,
    shown (fst (delta (fst (delta e [] new)) (snd (delta e [] new)) []))
    = shown e.

Lemma placeholder_run_ok (e : ed) (d : placeholder_deps) :
  shown (fst (run_effect (placeholder_exec delta) placeholder_run e d)) =
    (shown e ++ placeholder_added d)%list
  /\ shown (exec (placeholder_exec delta)
              (fst (run_effect (placeholder_exec delta) placeholder_run e d))
              (snd (run_effect (placeholder_exec delta) placeholder_run e d)))
     = shown e.
Proof.
  destruct d as [[editor monaco] actualContent].
  unfold run_effect, placeholder_added, placeholder_run, placeholder_effect.
  destruct (negb editor || negb monaco || truthy actualContent).
  - cbn. rewrite app_nil_r. split; reflexivity.
  - cbn [fst snd Placeholder.calls Placeholder.cleanup exec fold_left
         placeholder_exec answer].
    split; [apply delta_add | apply delta_undo].
Qed.

(** X13.  The placeholder follows the content.  Over any sequence of runs
    of the placeholder effect, each preceded by the cleanup of the run
    before, the editor shows what it showed before the first run plus the
    decoration of the last run alone; that is no decoration when the content
    of the last run is a non-empty string, or the editor or [monaco] is not
    set, and the one placeholder at line 1, column 1 otherwise.  After the
    cleanup at unmount it shows what it showed before the first run. *)
Theorem X13_placeholder_follows_content :
  forall (rs : list placeholder_deps) (e0 : ed),
    let st := renders (placeholder_exec delta) placeholder_run e0 [] rs in
    shown (fst st) = (shown e0 ++ last (map placeholder_added rs) [])%list
    /\ shown (unmount (placeholder_exec delta) st) = shown e0
    /\ (forall (editor monaco : bool) (actualContent : option string),
          placeholder_added (editor, monaco, actualContent) =
          if editor && monaco && negb (truthy actualContent)
          then [ {| Placeholder.range :=
                      {| startLineNumber := Int 1; startColumn := Int 1;
                         endLineNumber := Int 1; endColumn := Int 1 |};
                    Placeholder.options :=
                      {| Placeholder.after :=
                           {| Placeholder.content := zero_width_space;
                              Placeholder.inlineClassName := "placeholder-text" |} |} |} ]
          else []).
Proof.
  intros rs e0. cbv zeta.
  destruct (renders_ok (placeholder_exec delta) placeholder_run shown
              placeholder_added placeholder_run_ok rs e0 [] (shown e0) [])
    as [H1 H2]; [reflexivity | symmetry; apply app_nil_r |].
  split; [exact H1 |]. split; [exact H2 |].
  intros editor monaco actualContent.
  unfold placeholder_added, placeholder_run, placeholder_effect.
  destruct editor, monaco, (truthy actualContent); reflexivity.
Qed.

End PlaceholderLife.

Lemma X13_placeholder_follows_content_witness :
  let typed := [ (true, true, Some ""); (true, true, Some "a");
                 (true, true, Some "ab") ] in
  let erased := [ (true, true, Some "a"); (true, true, Some "") ] in
  fst (renders (placeholder_exec stack_delta) placeholder_run [] [] typed) = []
  /\ length (fst (renders (placeholder_exec stack_delta) placeholder_run
                    [] [] erased)) = 1%nat
  /\ unmount (placeholder_exec stack_delta)
       (renders (placeholder_exec stack_delta) placeholder_run [] [] erased)
     = [].
Proof.
  cbv zeta.
  destruct (X13_placeholder_follows_content stack_delta (fun e => e)
              stack_delta_add stack_delta_undo
              [ (true, true, Some ""); (true, true, Some "a");
                (true, true, Some "ab") ] [])
    as [H1 _].
  destruct (X13_placeholder_follows_content stack_delta (fun e => e)
              stack_delta_add stack_delta_undo
              [ (true, true, Some "a"); (true, true, Some "") ] [])
    as [H3 [H4 _]].
  split; [exact H1 |]. split; [| exact H4].
  rewrite H3. reflexivity.
Defined.

Section ListenerLife.

Context {nd : Type}.
Variable listen : nd -> node_call -> nd.
Variable bound : nd -> list selection.

(** The two DOM calls as the program relies on them: a listener added is
    bound after those already there, and removing it right away leaves the
    node as it was. *)
Hypothesis listen_add :
  forall n t l, bound (listen n (addEventListener t l)) = (bound n ++ [l])%list.
Hypothesis listen_undo :
  forall n t l,
    bound (listen (listen n (addEventListener t l)) (removeEventListener t l))
    = bound n.

Lemma listener_run_ok (n : nd) (d : listener_deps) :
  bound (fst (run_effect (listener_exec listen) listener_run n d)) =
    (bound n ++ listener_added d)%list
  /\ bound (exec (listener_exec listen)
              (fst (run_effect (listener_exec listen) listener_run n d))
              (snd (run_effect (listener_exec listen) listener_run n d)))
     = bound n.
Proof.
  destruct d as [node s].
  unfold run_effect, listener_added, listener_run, listener_effect.
  cbn [fst snd]. destruct (negb node).
  - cbn. rewrite app_nil_r. split; reflexivity.
  - cbn [fst snd exec fold_left listener_exec].
    split; [apply listen_add | apply listen_undo].
Qed.

(** X14.  One listener, and never a stale one.  Over any sequence of
    renders, each preceded by the cleanup of the render before, the node has
    the listeners it had before the first render plus the listener of the
    last render alone, which toggles from the selection of that render; a
    render without node binds none.  After the cleanup at unmount the node
    has the listeners it had before the first render.  A click handled by
    the listener of the selection held gives the view that [on_click]
    gives. *)
Theorem X14_one_fresh_listener :
  forall (rs : list listener_deps) (n0 : nd),
    let st := renders (listener_exec listen) listener_run n0 [] rs in
    bound (fst st) = (bound n0 ++ last (map listener_added rs) [])%list
    /\ bound (unmount (listener_exec listen) st) = bound n0
    /\ (forall (node : bool) (s : selection),
          listener_added (node, s) = if node then [s] else [])
    /\ (forall (v : view) (click : option MouseEvent),
          on_click v click =
          match listener_click (selected v) click with
          | Some s => {| selected := s; location_hash := hash_of s |}
          | None => v
          end).
Proof.
  intros rs n0. cbv zeta.
  destruct (renders_ok (listener_exec listen) listener_run bound
              listener_added listener_run_ok rs n0 [] (bound n0) [])
    as [H1 H2]; [reflexivity | symmetry; apply app_nil_r |].
  split; [exact H1 |]. split; [exact H2 |]. split.
  - intros node s. destruct node; reflexivity.
  - intros v click. unfold on_click, listener_click, toggle.
    destruct (handler click) as [[n e] |]; reflexivity.
Qed.

End ListenerLife.

Lemma stack_listen_undo (n : list selection) (t : string) (l : selection) :
  stack_listen (stack_listen n (addEventListener t l)) (removeEventListener t l)
  = n.
Proof. cbn [stack_listen]. apply removelast_last. Qed.

Lemma X14_one_fresh_listener_witness :
  let rs := [ (false, (Int (-1), Int (-1))); (true, (Int (-1), Int (-1)));
              (true, (Int 4, Int 4)); (true, (Int 4, Int 2)) ] in
  fst (renders (listener_exec stack_listen) listener_run [] [] rs)
    = [ (Int 4, Int 2) ]
  /\ unmount (listener_exec stack_listen)
       (renders (listener_exec stack_listen) listener_run [] [] rs) = [].
Proof.
  cbv zeta.
  destruct (X14_one_fresh_listener stack_listen (fun n => n)
              (fun n t l => eq_refl) stack_listen_undo
              [ (false, (Int (-1), Int (-1))); (true, (Int (-1), Int (-1)));
                (true, (Int 4, Int 4)); (true, (Int 4, Int 2)) ] [])
    as [H1 [H2 _]].
  split; [exact H1 | exact H2].
Defined.
